(** * A model of the products service (src/server.js)

    The Express application of [src/server.js] keeps an array of product
    objects in memory and serves it under [/api/products].  This file
    embeds the application as pure functions over an explicit store and
    proves the properties the specification states about it.

    Conventions of the embedding:
    - the array [products] is a [list Product]; a request is handled by a
      function from the store before to the store after and the response;
    - a thrown error or [next(err)] is an [Outcome] of a middleware, and the
      registered middleware is run in registration order;
    - [uuidv4()], [bodyParser.json()] and the query string parser are
      libraries outside the repository: the identifier a create would draw,
      the result of parsing the body and the parsed query are inputs of the
      model;
    - a string is written as its UTF-8 bytes; the Unicode case mapping of
      [String.prototype.toLowerCase] is a parameter of the model (the class
      [Engine]);
    - [console.log] of the logger is not modelled: the logger only calls
      [next()].  *)

From Stdlib Require Import ZArith Ascii String List Lia Bool.
From stdpp Require Import base tactics option list strings gmap fin_maps.

Local Open Scope string_scope.
Local Open Scope Z_scope.

(** ** JavaScript values and strings *)

Module JS.

(** The values a parsed JSON body can hold, and [undefined] for a property
    that is not there.  A number is carried as the decimal text that
    JavaScript prints for it: the handlers store and echo a price and never
    compute with it. *)
#[warnings="-register-all"] Inductive JValue : Type :=
| JUndefined
| JNull
| JBool (b : bool)
| JNum (numeral : string)
| JStr (s : string)
| JArr (items : list JValue)
| JObj (fields : list (string * JValue)).

(** The result of the [typeof] operator. *)
Inductive TypeTag := TUndefined | TObject | TBoolean | TNumber | TString.

Definition typeof (v : JValue) : TypeTag :=
  match v with
  | JUndefined => TUndefined
  | JNull | JArr _ | JObj _ => TObject
  | JBool _ => TBoolean
  | JNum _ => TNumber
  | JStr _ => TString
  end.

Definition TypeTag_eqb (a b : TypeTag) : bool :=
  match a, b with
  | TUndefined, TUndefined | TObject, TObject | TBoolean, TBoolean
  | TNumber, TNumber | TString, TString => true
  | _, _ => false
  end.

(** [o[k]] for an object written as the list of its own properties (the
    five names read by the handlers are not properties of
    [Object.prototype]). *)
Fixpoint get_prop (o : list (string * JValue)) (k : string) : JValue :=
  match o with
  | [] => JUndefined
  | (k', v) :: o' => if String.eqb k' k then v else get_prop o' k
  end.

(** A value of [req.query]: a text, or the array or object the query parser
    makes of a repeated or bracketed parameter. *)
#[warnings="-register-all"] Inductive QValue : Type :=
| QStr (s : string)
| QArr (items : list QValue)
| QObj (fields : list (string * QValue)).

(** [ToString] of a query value: an array is joined with commas. *)
Fixpoint QToString (v : QValue) : string :=
  match v with
  | QStr s => s
  | QArr items => String.concat "," (map QToString items)
  | QObj _ => "[object Object]"
  end.

(** *** Letter case *)

(** The lower case of an ASCII letter; every other byte is left as it is. *)
Definition ascii_lower (c : ascii) : ascii :=
  let n := N_of_ascii c in
  if ((65 <=? n) && (n <=? 90))%N then ascii_of_N (n + 32) else c.

Fixpoint ascii_toLowerCase (s : string) : string :=
  match s with
  | EmptyString => EmptyString
  | String c s' => String (ascii_lower c) (ascii_toLowerCase s')
  end.

(** The string is ASCII text. *)
Fixpoint ascii_only (s : string) : bool :=
  match s with
  | EmptyString => true
  | String c s' => (N_of_ascii c <? 128)%N && ascii_only s'
  end.

(** [String.prototype.toLowerCase]: the Unicode case mapping of the engine,
    of which the model uses only that it is a function and that on ASCII
    text it lowers the letters A to Z. *)
Class Engine := {
  toLowerCase : string -> string;
  toLowerCase_ascii :
    forall s, ascii_only s = true -> toLowerCase s = ascii_toLowerCase s
}.

(** The engine on which the examples are evaluated; the examples are ASCII
    text. *)
Definition ascii_engine : Engine :=
  {| toLowerCase := ascii_toLowerCase;
     toLowerCase_ascii := fun _ _ => eq_refl |}.

(** [s.includes(sub)]. *)
Fixpoint includes (s sub : string) : bool :=
  String.prefix sub s ||
  match s with
  | EmptyString => false
  | String _ s' => includes s' sub
  end.

(** [ToString] of a value, as a property key or operand of [+] needs it. *)
Fixpoint ToString (v : JValue) : string :=
  match v with
  | JUndefined => "undefined"
  | JNull => "null"
  | JBool true => "true"
  | JBool false => "false"
  | JNum numeral => numeral
  | JStr s => s
  | JArr items =>
      String.concat ","
        (map (fun x => match x with
                       | JUndefined | JNull => ""
                       | _ => ToString x
                       end) items)
  | JObj _ => "[object Object]"
  end.

(** *** Numbers

    The numbers the list handler computes with are integers, infinities and
    [NaN]; an integer is a double only when 53 bits hold it, so every
    arithmetic result is rounded to the nearest double, ties to even.  The
    two zeros are one [Fin 0]. *)
Inductive Number :=
| Fin (z : Z)
| PosInf
| NegInf
| NaN.

Coercion Fin : Z >-> Number.

(** The double nearest to the integer [a >= 0]; [None] when it is beyond
    the largest double. *)
Definition round_magnitude (a : Z) : option Z :=
  if a <? 2 ^ 53 then Some a
  else
    let e := Z.log2 a - 52 in
    let q := a / 2 ^ e in
    let r := a mod 2 ^ e in
    let half := 2 ^ (e - 1) in
    let q' := if r <? half then q
              else if half <? r then q + 1
              else if Z.even q then q else q + 1 in
    let v := q' * 2 ^ e in
    if 2 ^ 1024 <=? v then None else Some v.

Definition round_double (z : Z) : Number :=
  match round_magnitude (Z.abs z) with
  | Some v => Fin (Z.sgn z * v)
  | None => if z <? 0 then NegInf else PosInf
  end.

Definition num_sgn (a : Number) : Z :=
  match a with
  | Fin z => Z.sgn z
  | PosInf => 1
  | NegInf => -1
  | NaN => 0
  end.

(** [a - 1]. *)
Definition num_pred (a : Number) : Number :=
  match a with
  | Fin z => round_double (z - 1)
  | _ => a
  end.

(** [a * b]. *)
Definition num_mul (a b : Number) : Number :=
  match a, b with
  | NaN, _ | _, NaN => NaN
  | Fin x, Fin y => round_double (x * y)
  | _, _ =>
      let s := num_sgn a * num_sgn b in
      if s =? 0 then NaN else if s <? 0 then NegInf else PosInf
  end.

(** [n || d]: [NaN] and zero are falsy. *)
Definition or_default (n d : Number) : Number :=
  match n with
  | NaN | Fin 0 => d
  | _ => n
  end.

(** *** [parseInt] with no radix argument *)

(** The white space [parseInt] skips, on the bytes of the string: the ASCII
    characters TAB, LF, VT, FF, CR and SP, ... *)
Definition is_white (c : ascii) : bool :=
  let n := N_of_ascii c in
  ((9 <=? n) && (n <=? 13) || (n =? 32))%N.

(** ... U+00A0 (C2 A0), ... *)
Definition is_white2 (a b : ascii) : bool :=
  ((N_of_ascii a =? 194) && (N_of_ascii b =? 160))%N.

(** ... and U+1680, U+2000 to U+200A, U+2028, U+2029, U+202F, U+205F,
    U+3000 and U+FEFF, of three bytes each. *)
Definition is_white3 (a b c : ascii) : bool :=
  let x := N_of_ascii a in
  let y := N_of_ascii b in
  let z := N_of_ascii c in
  ((x =? 225) && (y =? 154) && (z =? 128) ||
   (x =? 226) && (y =? 128) &&
     ((128 <=? z) && (z <=? 138) || (z =? 168) || (z =? 169) || (z =? 175)) ||
   (x =? 226) && (y =? 129) && (z =? 159) ||
   (x =? 227) && (y =? 128) && (z =? 128) ||
   (x =? 239) && (y =? 187) && (z =? 191))%N.

Fixpoint skip_white (s : string) : string :=
  match s with
  | EmptyString => s
  | String a r1 =>
      if is_white a then skip_white r1
      else
        match r1 with
        | EmptyString => s
        | String b r2 =>
            if is_white2 a b then skip_white r2
            else
              match r2 with
              | EmptyString => s
              | String c r3 => if is_white3 a b c then skip_white r3 else s
              end
        end
  end.

(** The value of a character as a digit in the given radix. *)
Definition digit_val (radix : Z) (c : ascii) : option Z :=
  let n := Z.of_N (N_of_ascii c) in
  let d := if (48 <=? n) && (n <=? 57) then n - 48
           else if (97 <=? n) && (n <=? 122) then n - 87
           else if (65 <=? n) && (n <=? 90) then n - 55
           else 99 in
  if d <? radix then Some d else None.

(** Reads the longest run of digits; [None] when there is none. *)
Fixpoint read_digits (radix : Z) (s : string) (acc : option Z) : option Z :=
  match s with
  | String c s' =>
      match digit_val radix c with
      | Some d => read_digits radix s' (Some (default 0 acc * radix + d))
      | None => acc
      end
  | EmptyString => acc
  end.

(** [parseInt(s)]: the integer the digits denote, as a double (the nearest
    one, as V8 computes it; beyond twenty digits the standard leaves the
    last digits to the engine). *)
Definition parseInt_string (s : string) : Number :=
  let s1 := skip_white s in
  let '(sign, s2) :=
    match s1 with
    | String "-" r => (-1, r)
    | String "+" r => (1, r)
    | _ => (1, s1)
    end in
  let '(radix, s3) :=
    match s2 with
    | String "0" (String "x" r) | String "0" (String "X" r) => (16, r)
    | _ => (10, s2)
    end in
  match read_digits radix s3 None with
  | Some n => round_double (sign * n)
  | None => NaN
  end.

(** [parseInt(req.query[k])]: the argument is converted to a string first,
    [undefined] to ["undefined"]. *)
Definition parseInt (q : option QValue) : Number :=
  match q with
  | Some v => parseInt_string (QToString v)
  | None => NaN
  end.

(** [Array.prototype.slice(start, end)]: an index counts from the end when
    it is negative, and is clamped to the array. *)
Definition relative_index (len : Z) (n : Number) : Z :=
  match n with
  | NaN | NegInf => 0
  | PosInf => len
  | Fin z => if z <? 0 then Z.max (len + z) 0 else Z.min z len
  end.

Definition slice {A} (l : list A) (start end_ : Number) : list A :=
  let len := Z.of_nat (length l) in
  let k := relative_index len start in
  let final := relative_index len end_ in
  take (Z.to_nat (final - k)) (drop (Z.to_nat k) l).

End JS.
Import JS.

(** ** The data of the application *)

(** A product object [{ id, name, description, price, category, inStock }].
    The identifier is always a string ([uuidv4()] or [req.params.id]); the
    other fields hold whatever the request body held. *)
Module Product.
Record t := mk {
  id : string;
  name : JValue;
  description : JValue;
  price : JValue;
  category : JValue;
  inStock : JValue
}.
End Product.

(** [const products = []]. *)
Abbreviation Store := (list Product.t).
Definition products_init : Store := [].

(** An [Error] object: its [name], [status] (absent on the built-in errors)
    and [message]. *)
Record Error := {
  err_name : string;
  err_status : option Z;
  err_message : string
}.

Definition NotFoundError (message : string) : Error :=
  {| err_name := "NotFoundError"; err_status := Some 404; err_message := message |}.

Definition ValidationError (message : string) : Error :=
  {| err_name := "ValidationError"; err_status := Some 400; err_message := message |}.

(** The [TypeError] the engine throws for a method call on a value that has
    no such method. *)
Definition TypeError (message : string) : Error :=
  {| err_name := "TypeError"; err_status := None; err_message := message |}.

(** A value of the tally object built by the stats handler. *)
Inductive Tally :=
| Count (n : nat)
| Text (s : string).

(** What a response carries: nothing, a text, [{ error: message }], a
    product, an array of products, the envelope [{ page, limit, total, data }],
    the tally object, or the page Express renders itself. *)
Inductive Body :=
| BEmpty
| BText (s : string)
| BError (message : string)
| BProduct (p : Product.t)
| BProducts (l : list Product.t)
| BPage (page limit : Number) (total : nat) (data : list Product.t)
| BStats (stats : gmap string Tally)
| BFinal (e : option Error).

Record Response := { code : Z; body : Body }.

(** The methods the application registers routes for.  HEAD, which Express
    serves through the GET routes, and OPTIONS, which it answers itself,
    are outside the model. *)
Inductive Method := GET | POST | PUT | DELETE.

(** What [bodyParser.json()] makes of the request: the object it puts in
    [req.body], written as the list of its properties ([{}] when there is
    no JSON body; a top-level array has none of the properties the handlers
    read), or the error it passes to [next]. *)
Inductive BodyParse :=
| Parsed (o : list (string * JValue))
| ParseFailed (e : Error).

(** A request: the path as its decoded segments, the parsed query
    [req.query] as the list of its properties, the [x-api-key] header. *)
Record Request := {
  method : Method;
  path : list string;
  query : list (string * QValue);
  x_api_key : option string;
  json : BodyParse
}.

(** [req.query[k]]; [None] is [undefined]. *)
Fixpoint query_param (q : list (string * QValue)) (k : string) : option QValue :=
  match q with
  | [] => None
  | (k', v) :: q' => if String.eqb k' k then Some v else query_param q' k
  end.

(** [req.body]. *)
Definition req_body (r : Request) : list (string * JValue) :=
  match json r with
  | Parsed o => o
  | ParseFailed _ => []
  end.

(** What a middleware sees: the request, [req.params.id] and the identifier
    [uuidv4()] returns when called. *)
Record Ctx := {
  req : Request;
  param_id : string;
  uuid : string
}.

(** How a middleware ends: [next()], [next(err)], or a response sent. *)
Inductive Outcome :=
| Next
| NextErr (e : Error)
| Respond (st : Store) (r : Response).

Definition Middleware := Ctx -> Store -> Outcome.

(** How the body of an [async] handler ends. *)
Inductive Completion :=
| Throws (e : Error)
| Returns (st : Store) (r : Response).

(** [res.json(b)] and [res.status(c).json(b)]. *)
Definition json_200 (st : Store) (b : Body) : Completion :=
  Returns st {| code := 200; body := b |}.

(** ** The application, for any engine *)

Section Application.

Context `{engine : Engine}.

(** *** Middleware *)

(** [logger]: writes a line to the console. *)
Definition logger : Middleware := fun _ _ => Next.

Definition bodyParser_json : Middleware := fun c _ =>
  match json (req c) with
  | Parsed _ => Next
  | ParseFailed e => NextErr e
  end.

Definition authMiddleware : Middleware := fun c st =>
  let unauthorized :=
    Respond st {| code := 401;
                  body := BError "Unauthorized: Invalid or missing API key" |} in
  match x_api_key (req c) with
  | None => unauthorized
  | Some apiKey =>
      if String.eqb apiKey "" || negb (String.eqb apiKey "mysecretapikey")
      then unauthorized else Next
  end.

Definition validateProduct : Middleware := fun c _ =>
  let b := req_body (req c) in
  if negb (TypeTag_eqb (typeof (get_prop b "name")) TString) ||
     negb (TypeTag_eqb (typeof (get_prop b "description")) TString) ||
     negb (TypeTag_eqb (typeof (get_prop b "price")) TNumber) ||
     negb (TypeTag_eqb (typeof (get_prop b "category")) TString) ||
     negb (TypeTag_eqb (typeof (get_prop b "inStock")) TBoolean)
  then NextErr (ValidationError "Invalid product data")
  else Next.

(** The response [errorHandler] sends: [err.status || 500] and
    [{ error: err.message || "Internal Server Error" }]. *)
Definition error_response (err : Error) : Response :=
  {| code := match err_status err with
             | Some 0 | None => 500
             | Some status => status
             end;
     body := BError (if String.eqb (err_message err) ""
                     then "Internal Server Error" else err_message err) |}.

(** [errorHandler]; [headersSent] is [res.headersSent]. *)
Definition errorHandler (headersSent : bool) (err : Error) : Middleware := fun _ st =>
  if headersSent then NextErr err else Respond st (error_response err).

Definition asyncHandler (fn : Ctx -> Store -> Completion) : Middleware := fun c st =>
  match fn c st with
  | Throws e => NextErr e
  | Returns st' r => Respond st' r
  end.

(** ** Route handlers *)

(** [v.toLowerCase()] where [v] is the value of the expression [expr]. *)
Definition call_toLowerCase (expr : string) (v : JValue) : Error + string :=
  match v with
  | JStr s => inr (toLowerCase s)
  | JUndefined =>
      inl (TypeError "Cannot read properties of undefined (reading 'toLowerCase')")
  | JNull =>
      inl (TypeError "Cannot read properties of null (reading 'toLowerCase')")
  | _ => inl (TypeError (expr +:+ ".toLowerCase is not a function"))
  end.

(** [q.toLowerCase()] where [q] is the query value of the expression
    [expr]: only a text has the method. *)
Definition query_toLowerCase (expr : string) (q : QValue) : Error + string :=
  match q with
  | QStr s => inr (toLowerCase s)
  | _ => inl (TypeError (expr +:+ ".toLowerCase is not a function"))
  end.

(** [l.filter(f)] for a callback that may throw. *)
Fixpoint filter_throw {A} (f : A -> Error + bool) (l : list A) : Error + list A :=
  match l with
  | [] => inr []
  | x :: l' =>
      match f x with
      | inl e => inl e
      | inr b =>
          match filter_throw f l' with
          | inl e => inl e
          | inr r => inr (if b then x :: r else r)
          end
      end
  end.

(** [products.find((p) => p.id === id)] and [products.findIndex(...)];
    [None] is [undefined] and [-1]. *)
Definition find_by_id (st : Store) (i : string) : option Product.t :=
  snd <$> list_find (fun p => Product.id p = i) st.

Definition findIndex_by_id (st : Store) (i : string) : option nat :=
  fst <$> list_find (fun p => Product.id p = i) st.

(** The object [{ id, name, description, price, category, inStock }] built
    from [req.body]. *)
Definition product_of_body (i : string) (b : list (string * JValue)) : Product.t :=
  {| Product.id := i;
     Product.name := get_prop b "name";
     Product.description := get_prop b "description";
     Product.price := get_prop b "price";
     Product.category := get_prop b "category";
     Product.inStock := get_prop b "inStock" |}.

(** GET /api/products *)
Definition category_matches (q : QValue) (p : Product.t) : Error + bool :=
  match call_toLowerCase "p.category" (Product.category p) with
  | inl e => inl e
  | inr c =>
      match query_toLowerCase "req.query.category" q with
      | inl e => inl e
      | inr l => inr (String.eqb c l)
      end
  end.

Definition category_filter (q : QValue) (st : Store) : Error + list Product.t :=
  filter_throw (category_matches q) st.

Definition list_handler (c : Ctx) (st : Store) : Completion :=
  let filtered :=
    match query_param (query (req c)) "category" with
    | None | Some (QStr "") => inr st
    | Some q => category_filter q st
    end in
  match filtered with
  | inl e => Throws e
  | inr filtered =>
      let page := or_default (parseInt (query_param (query (req c)) "page")) 1 in
      let limit := or_default (parseInt (query_param (query (req c)) "limit")) 10 in
      let startIndex := num_mul (num_pred page) limit in
      let endIndex := num_mul page limit in
      let paginated := slice filtered startIndex endIndex in
      json_200 st (BPage page limit (length filtered) paginated)
  end.

(** GET /api/products/:id *)
Definition get_handler (c : Ctx) (st : Store) : Completion :=
  match find_by_id st (param_id c) with
  | None => Throws (NotFoundError "Product not found")
  | Some product => json_200 st (BProduct product)
  end.

(** POST /api/products *)
Definition create_handler (c : Ctx) (st : Store) : Completion :=
  let newProduct := product_of_body (uuid c) (req_body (req c)) in
  Returns (st ++ [newProduct]) {| code := 201; body := BProduct newProduct |}.

(** PUT /api/products/:id *)
Definition update_handler (c : Ctx) (st : Store) : Completion :=
  match findIndex_by_id st (param_id c) with
  | None => Throws (NotFoundError "Product not found")
  | Some productIndex =>
      let st' := <[productIndex := product_of_body (param_id c) (req_body (req c))]> st in
      match st' !! productIndex with
      | Some p => json_200 st' (BProduct p)
      | None => json_200 st' BEmpty
      end
  end.

(** DELETE /api/products/:id *)
Definition delete_handler (c : Ctx) (st : Store) : Completion :=
  match findIndex_by_id st (param_id c) with
  | None => Throws (NotFoundError "Product not found")
  | Some productIndex =>
      Returns (delete productIndex st) {| code := 204; body := BEmpty |}
  end.

(** GET /api/products/search *)
Definition name_matches (q : QValue) (p : Product.t) : Error + bool :=
  match call_toLowerCase "p.name" (Product.name p) with
  | inl e => inl e
  | inr n =>
      match query_toLowerCase "nameQuery" q with
      | inl e => inl e
      | inr l => inr (includes n l)
      end
  end.

Definition name_filter (q : QValue) (st : Store) : Error + list Product.t :=
  filter_throw (name_matches q) st.

Definition search_handler (c : Ctx) (st : Store) : Completion :=
  match query_param (query (req c)) "name" with
  | None | Some (QStr "") =>
      Returns st {| code := 400;
                    body := BError "Missing required query parameter: name" |}
  | Some nameQuery =>
      match name_filter nameQuery st with
      | inl e => Throws e
      | inr matched => json_200 st (BProducts matched)
      end
  end.

(** GET /api/products/stats.  The accumulator [{}] inherits from
    [Object.prototype]: [acc[k]] for a name of that prototype is the
    inherited member, and [acc["__proto__"] = v] with a string [v] sets
    nothing.  [Object_prototype_text k] is the text the inherited member
    [k] contributes to [acc[k] + 1]. *)
Definition Object_prototype_functions : list string :=
  ["__defineGetter__"; "__defineSetter__"; "hasOwnProperty";
   "__lookupGetter__"; "__lookupSetter__"; "isPrototypeOf";
   "propertyIsEnumerable"; "toString"; "valueOf"; "toLocaleString"].

Definition Object_prototype_text (k : string) : option string :=
  if String.eqb k "__proto__" then Some "[object Object]"
  else if String.eqb k "constructor"
  then Some "function Object() { [native code] }"
  else if existsb (String.eqb k) Object_prototype_functions
  then Some ("function " +:+ k +:+ "() { [native code] }")
  else None.

(** [acc[k] = (acc[k] || 0) + 1; return acc]. *)
Definition tally_step (acc : gmap string Tally) (k : string) : gmap string Tally :=
  match acc !! k with
  | Some (Count n) => <[k := Count (n + 1)]> acc
  | Some (Text "") => <[k := Count 1]> acc
  | Some (Text s) => <[k := Text (s +:+ "1")]> acc
  | None =>
      match Object_prototype_text k with
      | None => <[k := Count 1]> acc
      | Some t =>
          if String.eqb k "__proto__" then acc
          else <[k := Text (t +:+ "1")]> acc
      end
  end.

Definition stats_of (st : Store) : gmap string Tally :=
  fold_left (fun acc product => tally_step acc (ToString (Product.category product)))
            st ∅.

Definition stats_handler (c : Ctx) (st : Store) : Completion :=
  json_200 st (BStats (stats_of st)).

(** GET / *)
Definition root_handler : Middleware := fun _ st =>
  Respond st {| code := 200; body := BText "Hello World" |}.

(** ** The application: layers in registration order *)

Inductive Segment :=
| Lit (s : string)
| Param.

Inductive Layer :=
| Use (mount : list string) (m : Middleware)
| Route (meth : Method) (pattern : list Segment) (chain : list Middleware)
| UseError (h : Error -> Middleware).

Definition Method_eqb (a b : Method) : bool :=
  match a, b with
  | GET, GET | POST, POST | PUT, PUT | DELETE, DELETE => true
  | _, _ => false
  end.

(** Routing is case-insensitive (the default of [express()]): the route is
    a regular expression with the flag [i], under which an ASCII letter of
    the pattern matches its two cases and nothing else. *)
Definition seg_eqb (lit seg : string) : bool :=
  String.eqb (ascii_toLowerCase lit) (ascii_toLowerCase seg).

(** [app.use(mount, ...)] matches every path that starts with [mount]. *)
Fixpoint mount_matches (mount p : list string) : bool :=
  match mount, p with
  | [], _ => true
  | m :: mount', s :: p' => seg_eqb m s && mount_matches mount' p'
  | _ :: _, [] => false
  end.

(** A route matches a path of the same length; the result is the value of
    [:id] (empty when the pattern has none). *)
Fixpoint route_matches (pattern : list Segment) (p : list string) (i : string)
  : option string :=
  match pattern, p with
  | [], [] => Some i
  | Lit l :: pattern', s :: p' =>
      if seg_eqb l s then route_matches pattern' p' i else None
  | Param :: pattern', s :: p' =>
      if String.eqb s "" then None else route_matches pattern' p' s
  | _, _ => None
  end.

(** The handlers of one route, in order. *)
Fixpoint run_chain (chain : list Middleware) (c : Ctx) (st : Store) : Outcome :=
  match chain with
  | [] => Next
  | m :: chain' =>
      match m c st with
      | Next => run_chain chain' c st
      | o => o
      end
  end.

(** The response of Express when no layer answers. *)
Definition finalhandler (pending : option Error) : Response :=
  {| code := match pending with
             | None => 404
             | Some e => match err_status e with
                         | Some s => s
                         | None => 500
                         end
             end;
     body := BFinal pending |}.

(** Runs the layers: with an error pending only error handlers run. *)
Fixpoint run (layers : list Layer) (pending : option Error)
    (r : Request) (u : string) (st : Store) : Store * Response :=
  let ctx i := {| req := r; param_id := i; uuid := u |} in
  let continue rest o :=
    match o with
    | Next => run rest None r u st
    | NextErr e => run rest (Some e) r u st
    | Respond st' resp => (st', resp)
    end in
  match layers with
  | [] => (st, finalhandler pending)
  | layer :: rest =>
      match pending, layer with
      | Some e, UseError h => continue rest (h e (ctx "") st)
      | Some e, _ => run rest (Some e) r u st
      | None, UseError _ => run rest None r u st
      | None, Use mount m =>
          if mount_matches mount (path r)
          then continue rest (m (ctx "") st)
          else run rest None r u st
      | None, Route meth pattern chain =>
          if Method_eqb meth (method r) then
            match route_matches pattern (path r) "" with
            | Some i => continue rest (run_chain chain (ctx i) st)
            | None => run rest None r u st
            end
          else run rest None r u st
      end
  end.

Definition products_path : list Segment := [Lit "api"; Lit "products"].

(** The calls on [app], in the order of the source. *)
Definition app : list Layer :=
  [ Use [] bodyParser_json;
    Use [] logger;
    Route GET [] [root_handler];
    Use ["api"; "products"] authMiddleware;
    Route GET products_path [asyncHandler list_handler];
    Route GET (products_path ++ [Param]) [asyncHandler get_handler];
    Route POST products_path [validateProduct; asyncHandler create_handler];
    Route PUT (products_path ++ [Param]) [validateProduct; asyncHandler update_handler];
    Route DELETE (products_path ++ [Param]) [asyncHandler delete_handler];
    Route GET (products_path ++ [Lit "search"]) [asyncHandler search_handler];
    Route GET (products_path ++ [Lit "stats"]) [asyncHandler stats_handler];
    UseError (errorHandler false) ].

(** One request served: [u] is the identifier [uuidv4()] returns if the
    request creates a product. *)
Definition handle (u : string) (st : Store) (r : Request) : Store * Response :=
  run app None r u st.

(** ** The vocabulary of the specification *)

(** A request that carries the shared secret and a body the parser accepted. *)
Definition with_key (m : Method) (p : list string) (q : list (string * QValue))
    (b : list (string * JValue)) : Request :=
  {| method := m; path := p; query := q;
     x_api_key := Some "mysecretapikey"; json := Parsed b |}.

(** The payload supplies field [k]: the field is there. *)
Fixpoint field (b : list (string * JValue)) (k : string) : option JValue :=
  match b with
  | [] => None
  | (k', v) :: b' => if decide (k' = k) then Some v else field b' k
  end.

Definition supplies (b : list (string * JValue)) (k : string) (ty : TypeTag) : Prop :=
  exists v, field b k = Some v /\ typeof v = ty.

(** The five business fields, each of its primitive type. *)
Definition valid_payload (b : list (string * JValue)) : Prop :=
  supplies b "name" TString /\ supplies b "description" TString /\
  supplies b "price" TNumber /\ supplies b "category" TString /\
  supplies b "inStock" TBoolean.

Definition business_fields : list string :=
  ["name"; "description"; "price"; "category"; "inStock"].

(** The five business fields and no other. *)
Definition exactly_five (b : list (string * JValue)) : Prop :=
  valid_payload b /\ forall k, is_Some (field b k) -> k ∈ business_fields.

(** A stored product has its five fields of the right primitive types. *)
Definition typed (p : Product.t) : Prop :=
  typeof (Product.name p) = TString /\
  typeof (Product.description p) = TString /\
  typeof (Product.price p) = TNumber /\
  typeof (Product.category p) = TString /\
  typeof (Product.inStock p) = TBoolean.

Definition ids (st : Store) : list string := Product.id <$> st.

(** The invariant of the store. *)
Definition store_inv (st : Store) : Prop :=
  NoDup (ids st) /\ Forall typed st.

(** The invariant with the non-empty name the data model asks for. *)
Definition store_inv_nonempty_name (st : Store) : Prop :=
  store_inv st /\ Forall (fun p => Product.name p <> JStr "") st.

(** The validator as a boolean test of the payload. *)
Definition passes (b : list (string * JValue)) : bool :=
  TypeTag_eqb (typeof (get_prop b "name")) TString &&
  TypeTag_eqb (typeof (get_prop b "description")) TString &&
  TypeTag_eqb (typeof (get_prop b "price")) TNumber &&
  TypeTag_eqb (typeof (get_prop b "category")) TString &&
  TypeTag_eqb (typeof (get_prop b "inStock")) TBoolean.

(** The answer to a request whose handler completes as [k]. *)
Definition answer (st : Store) (k : Completion) : Store * Response :=
  match k with
  | Throws e => (st, error_response e)
  | Returns st' r => (st', r)
  end.

Definition not_found : Response :=
  {| code := 404; body := BError "Product not found" |}.

Definition invalid_product : Response :=
  {| code := 400; body := BError "Invalid product data" |}.

Definition unauthorized : Response :=
  {| code := 401; body := BError "Unauthorized: Invalid or missing API key" |}.

(** The business field of a stored product by its name. *)
Definition business_field (p : Product.t) (k : string) : option JValue :=
  if decide (k = "name") then Some (Product.name p)
  else if decide (k = "description") then Some (Product.description p)
  else if decide (k = "price") then Some (Product.price p)
  else if decide (k = "category") then Some (Product.category p)
  else if decide (k = "inStock") then Some (Product.inStock p)
  else None.

(** The sequence without the slot at index [k]. *)
Definition without_slot (k : nat) (st : Store) : Store :=
  (take k st ++ drop (S k) st)%list.

(** A chain of handlers takes [Pre] to [Post] when every response it sends
    for the request [r] from a store that satisfies [Pre], with [u] the
    identifier a create draws, leaves a store that satisfies [Post]. *)
Definition chain_keeps (Pre Post : Store -> Prop) (u : string) (r : Request)
    (chain : list Middleware) : Prop :=
  forall c st st' resp,
    uuid c = u -> req c = r -> Pre st ->
    run_chain chain c st = Respond st' resp -> Post st'.

Definition layer_keeps (Pre Post : Store -> Prop) (u : string) (r : Request)
    (l : Layer) : Prop :=
  match l with
  | Use _ m => chain_keeps Pre Post u r [m]
  | Route meth _ chain => meth = method r -> chain_keeps Pre Post u r chain
  | UseError h => forall e, chain_keeps Pre Post u r [h e]
  end.

(** A chain all of whose responses leave the store as it was. *)
Definition chain_reads (chain : list Middleware) : Prop :=
  forall c st st' resp, run_chain chain c st = Respond st' resp -> st' = st.

(** The invariant together with the freshness of the next identifier. *)
Definition inv_fresh (u : string) (st : Store) : Prop :=
  store_inv st /\ u ∉ ids st.

(** The product's category equals [q] up to case. *)
Definition category_is (q : string) (p : Product.t) : bool :=
  match Product.category p with
  | JStr s => String.eqb (toLowerCase s) (toLowerCase q)
  | _ => false
  end.

(** The sequence the list operation paginates: the store, filtered by
    category when the parameter is given (and not empty). *)
Definition filtered_by (category : option string) (st : Store) : list Product.t :=
  match category with
  | None | Some "" => st
  | Some q => filter (fun p => Is_true (category_is q p)) st
  end.

(** The elements of [l] at the indices of the half-open range from [a] to [b]. *)
Definition range {A} (l : list A) (a b : nat) : list A :=
  take (b - a) (drop a l).


(** The query value is a text, or is not there. *)
Definition text_or_absent (v : option QValue) : Prop :=
  match v with
  | None | Some (QStr _) => True
  | Some _ => False
  end.

(** The text of a query value that is one. *)
Definition as_text (v : option QValue) : option string :=
  match v with
  | Some (QStr s) => Some s
  | _ => None
  end.


(** The page and limit the list operation uses for a query. *)
Definition page_used (q : list (string * QValue)) : Number :=
  or_default (parseInt (query_param q "page")) 1.

Definition limit_used (q : list (string * QValue)) : Number :=
  or_default (parseInt (query_param q "limit")) 10.

(** [sub] occurs in [s]. *)
Definition substring_of (sub s : string) : Prop :=
  exists pre post, s = pre +:+ sub +:+ post.

(** The product's name contains [q] up to case. *)
Definition name_contains (q : string) (p : Product.t) : bool :=
  match Product.name p with
  | JStr s => includes (toLowerCase s) (toLowerCase q)
  | _ => false
  end.

(** The product's category is exactly [k]. *)
Definition has_category (k : string) (p : Product.t) : bool :=
  match Product.category p with
  | JStr s => String.eqb s k
  | _ => false
  end.

Definition count_category (k : string) (st : Store) : nat :=
  length (filter (fun p => Is_true (has_category k p)) st).

(** The count a tally holds, and the sum of the counts of a tally object. *)
Definition tally_count (t : Tally) : nat :=
  match t with
  | Count n => n
  | Text _ => 0
  end.

Definition total (m : gmap string Tally) : nat :=
  map_fold (fun _ t s => (tally_count t + s)%nat) 0%nat m.

(** Every value of the tally object is a count. *)
Definition numeric (m : gmap string Tally) : Prop :=
  forall k t, m !! k = Some t -> exists n, t = Count n.

(** The category is a string that names no member of [Object.prototype]. *)
Definition plain_category (p : Product.t) : Prop :=
  exists s, Product.category p = JStr s /\ Object_prototype_text s = None.

(** The tally after the products of [st], started from [acc]. *)
Definition tally_from (acc : gmap string Tally) (st : Store) : gmap string Tally :=
  fold_left (fun acc product => tally_step acc (ToString (Product.category product)))
            st acc.

(** A tally entry after [c] more products of its category. *)
Definition bump (o : option Tally) (c : nat) : option Tally :=
  match c, o with
  | O, _ => o
  | _, Some (Count n) => Some (Count (n + c))
  | _, _ => Some (Count c)
  end.

(** The tally the specification describes, looked up at [k]. *)
Definition expected_tally (k : string) (st : Store) : option Tally :=
  match count_category k st with
  | O => None
  | n => Some (Count n)
  end.

(** The stores the application can be in: the empty one, and the one after
    a request served from such a store with an identifier not yet in use. *)
Inductive reachable : Store -> Prop :=
| reachable_init : reachable products_init
| reachable_step u st r :
    reachable st -> u ∉ ids st -> reachable (fst (handle u st r)).





(** The layers of the application without the search and stats routes. *)
Definition app_reached : list Layer :=
  [ Use [] bodyParser_json;
    Use [] logger;
    Route GET [] [root_handler];
    Use ["api"; "products"] authMiddleware;
    Route GET products_path [asyncHandler list_handler];
    Route GET (products_path ++ [Param]) [asyncHandler get_handler];
    Route POST products_path [validateProduct; asyncHandler create_handler];
    Route PUT (products_path ++ [Param]) [validateProduct; asyncHandler update_handler];
    Route DELETE (products_path ++ [Param]) [asyncHandler delete_handler];
    UseError (errorHandler false) ].

(** The request is one the layer takes up: the mount or the route matches. *)
Definition takes_up (l : Layer) (r : Request) : bool :=
  match l with
  | Use mount _ => mount_matches mount (path r)
  | Route meth pattern _ =>
      Method_eqb meth (method r) &&
      bool_decide (is_Some (route_matches pattern (path r) ""))
  | UseError _ => true
  end.

(** The layer lets the request pass: its middleware calls [next()], or its
    route does not match; an error handler has nothing to handle. *)
Definition steps_over (u : string) (r : Request) (st : Store) (l : Layer) : Prop :=
  match l with
  | Use mount m =>
      mount_matches mount (path r) = true ->
      m {| req := r; param_id := ""; uuid := u |} st = Next
  | Route _ _ _ => takes_up l r = false
  | UseError _ => True
  end.

(** ** Sample data *)

Definition pen : list (string * JValue) :=
  [("name", JStr "Pen"); ("description", JStr "Blue ink"); ("price", JNum "1.5");
   ("category", JStr "Stationery"); ("inStock", JBool true)].

Definition red_mug : list (string * JValue) :=
  [("name", JStr "Red Mug"); ("description", JStr "A mug"); ("price", JNum "4");
   ("category", JStr "Kitchen"); ("inStock", JBool false)].

Definition nameless : list (string * JValue) :=
  [("name", JStr ""); ("description", JStr "Blue ink"); ("price", JNum "1.5");
   ("category", JStr "Stationery"); ("inStock", JBool true)].

Definition id1 : string := "9b2f6c1e-7c1a-4f0e-9a55-0d6b1a2c3d4e".
Definition id2 : string := "1c7d2a90-3b4e-4c8f-8d21-5e6f7a8b9c0d".

Definition two_products : Store :=
  [product_of_body id1 pen; product_of_body id2 red_mug].


Definition pen_with_id : list (string * JValue) :=
  ("id", JStr "zz") :: pen.

Definition sample_ctx (r : Request) : Ctx :=
  {| req := r; param_id := ""; uuid := id2 |}.

(** The error [bodyParser.json()] raises for a body that is not JSON. *)
Definition malformed_json : Error :=
  {| err_name := "SyntaxError"; err_status := Some 400;
     err_message := "Unexpected end of JSON input" |}.

Definition keyless_malformed_post : Request :=
  {| method := POST; path := ["api"; "products"]; query := [];
     x_api_key := None; json := ParseFailed malformed_json |}.

Definition wrong_key_post : Request :=
  {| method := POST; path := ["api"; "products"]; query := [];
     x_api_key := Some "guess"; json := Parsed pen |}.

Definition three_products : Store :=
  two_products ++ [product_of_body "7e57ab1e-0000-4000-8000-000000000003" pen].

Definition constructor_item : list (string * JValue) :=
  [("name", JStr "Lego"); ("description", JStr "Bricks"); ("price", JNum "30");
   ("category", JStr "constructor"); ("inStock", JBool true)].

Definition proto_item : list (string * JValue) :=
  [("name", JStr "Prototype"); ("description", JStr "Sample"); ("price", JNum "0");
   ("category", JStr "__proto__"); ("inStock", JBool true)].
(** ** Properties of the validator *)

Lemma get_prop_field b k : get_prop b k = default JUndefined (field b k).
Proof.
  induction b as [|[k' v] b IH]; simpl; [done|].
  destruct (String.eqb_spec k' k); case_decide; simpl; congruence.
Qed.

Lemma TypeTag_eqb_eq a b : TypeTag_eqb a b = true <-> a = b.
Proof. destruct a, b; simpl; split; congruence. Qed.

Lemma typeof_get_prop b k ty :
  ty <> TUndefined ->
  TypeTag_eqb (typeof (get_prop b k)) ty = true <-> supplies b k ty.
Proof.
  intros Hty. rewrite TypeTag_eqb_eq, get_prop_field. unfold supplies.
  destruct (field b k) as [v|]; simpl; split.
  - eauto.
  - intros (v' & [= <-] & H). done.
  - congruence.
  - intros (v' & [=] & _).
Qed.

Lemma validateProduct_passes c st :
  validateProduct c st =
  if passes (req_body (req c)) then Next
  else NextErr (ValidationError "Invalid product data").
Proof.
  unfold validateProduct, passes.
  repeat match goal with |- context [TypeTag_eqb ?a ?b] =>
    destruct (TypeTag_eqb a b); simpl; try reflexivity end.
Qed.

Lemma passes_valid b : passes b = true <-> valid_payload b.
Proof.
  unfold passes, valid_payload.
  rewrite !andb_true_iff, !typeof_get_prop by discriminate. tauto.
Qed.

Lemma passes_typed i b : passes b = true -> typed (product_of_body i b).
Proof.
  unfold passes, typed. rewrite !andb_true_iff, !TypeTag_eqb_eq. simpl. tauto.
Qed.

(** ** How the application dispatches a request *)

Ltac dispatch :=
  unfold handle, app, with_key;
  cbn -[list_handler get_handler create_handler update_handler delete_handler
        search_handler stats_handler validateProduct String.eqb];
  repeat match goal with
  | H : ?i <> "" |- context [String.eqb ?i ""] =>
      rewrite (proj2 (String.eqb_neq i "") H)
  end;
  change (seg_eqb "api" "api") with true;
  change (seg_eqb "products" "products") with true;
  change (String.eqb "mysecretapikey" "") with false;
  change (String.eqb "mysecretapikey" "mysecretapikey") with true;
  cbn -[list_handler get_handler create_handler update_handler delete_handler
        search_handler stats_handler validateProduct String.eqb];
  rewrite ?validateProduct_passes; unfold asyncHandler, answer, error_response.

Lemma handle_list u st q b :
  handle u st (with_key GET ["api"; "products"] q b) =
  answer st (list_handler
               {| req := with_key GET ["api"; "products"] q b;
                  param_id := ""; uuid := u |} st).
Proof.
  dispatch.
  match goal with |- context [list_handler ?c ?s] => destruct (list_handler c s) end;
    reflexivity.
Qed.

Lemma handle_get u st i q b :
  i <> "" ->
  handle u st (with_key GET ["api"; "products"; i] q b) =
  answer st (get_handler
               {| req := with_key GET ["api"; "products"; i] q b;
                  param_id := i; uuid := u |} st).
Proof.
  intros Hi. dispatch.
  match goal with |- context [get_handler ?c ?s] => destruct (get_handler c s) end;
    reflexivity.
Qed.

Lemma handle_post u st q b :
  handle u st (with_key POST ["api"; "products"] q b) =
  if passes b
  then answer st (create_handler
                    {| req := with_key POST ["api"; "products"] q b;
                       param_id := ""; uuid := u |} st)
  else (st, invalid_product).
Proof. dispatch. cbv [req_body json req]. destruct (passes b); reflexivity. Qed.

Lemma handle_put u st i q b :
  i <> "" ->
  handle u st (with_key PUT ["api"; "products"; i] q b) =
  if passes b
  then answer st (update_handler
                    {| req := with_key PUT ["api"; "products"; i] q b;
                       param_id := i; uuid := u |} st)
  else (st, invalid_product).
Proof.
  intros Hi. dispatch. cbv [req_body json req]. destruct (passes b); [|reflexivity].
  match goal with |- context [update_handler ?c ?s] => destruct (update_handler c s) end;
    reflexivity.
Qed.

Lemma handle_delete u st i q b :
  i <> "" ->
  handle u st (with_key DELETE ["api"; "products"; i] q b) =
  answer st (delete_handler
               {| req := with_key DELETE ["api"; "products"; i] q b;
                  param_id := i; uuid := u |} st).
Proof.
  intros Hi. dispatch.
  match goal with |- context [delete_handler ?c ?s] => destruct (delete_handler c s) end;
    reflexivity.
Qed.

(** ** Lookups in the store *)

Lemma find_by_id_None st i : find_by_id st i = None <-> i ∉ ids st.
Proof.
  unfold find_by_id, ids. rewrite fmap_None, list_find_None, Forall_forall.
  rewrite list_elem_of_fmap. split.
  - intros H (p & -> & Hp). by apply (H p).
  - intros H p Hp Hi. apply H. eauto.
Qed.

Lemma findIndex_by_id_None st i : findIndex_by_id st i = None <-> i ∉ ids st.
Proof.
  rewrite <- find_by_id_None. unfold findIndex_by_id, find_by_id.
  rewrite !fmap_None. done.
Qed.

Lemma findIndex_by_id_Some st i k :
  findIndex_by_id st i = Some k <->
  exists p, st !! k = Some p /\ Product.id p = i /\
            forall j y, st !! j = Some y -> (j < k)%nat -> Product.id y <> i.
Proof.
  unfold findIndex_by_id. rewrite fmap_Some. split.
  - intros ([k' p] & H & ->). apply list_find_Some in H. eauto.
  - intros (p & H). exists (k, p). split; [|done]. by apply list_find_Some.
Qed.

Lemma findIndex_by_id_elem st i :
  i ∈ ids st -> exists k, findIndex_by_id st i = Some k.
Proof.
  intros Hi. destruct (findIndex_by_id st i) as [k|] eqn:E; [eauto|].
  by apply findIndex_by_id_None in E.
Qed.

(** After [products[k] = p] at the index found for [i], a lookup of the
    identifier of [p] finds [p]. *)
Lemma find_by_id_insert st i k p :
  findIndex_by_id st i = Some k -> Product.id p = i ->
  find_by_id (<[k := p]> st) i = Some p.
Proof.
  intros (p0 & Hk & _ & Hleast)%findIndex_by_id_Some Hp.
  unfold find_by_id. apply fmap_Some. exists (k, p). split; [|done].
  apply list_find_Some. split_and!; [|done|].
  - apply list_lookup_insert_eq. by eapply lookup_lt_Some.
  - intros j y Hj Hlt. rewrite list_lookup_insert_ne in Hj by lia. eauto.
Qed.

Lemma NoDup_not_elem_of_delete {A} (l : list A) k x :
  NoDup l -> l !! k = Some x -> x ∉ delete k l.
Proof.
  intros Hnd Hk. rewrite <- (take_drop_middle l k x Hk) in Hnd.
  rewrite delete_take_drop.
  apply NoDup_app in Hnd as (_ & Hdisj & Htl%NoDup_cons).
  intros [Hin|Hin]%elem_of_app.
  - apply (Hdisj x Hin). left.
  - by destruct Htl.
Qed.

Lemma find_by_id_delete st i k :
  NoDup (ids st) -> findIndex_by_id st i = Some k ->
  find_by_id (delete k st) i = None.
Proof.
  intros Hnd (p & Hk & Hp & _)%findIndex_by_id_Some.
  apply find_by_id_None. unfold ids in *. rewrite list_fmap_delete.
  apply NoDup_not_elem_of_delete; [done|].
  by rewrite list_lookup_fmap, Hk; simpl; rewrite Hp.
Qed.

(** ** Validation *)

(** C6, as amended: the validator accepts a payload exactly when it supplies
    the five business fields, each of its primitive type; fields beyond the
    five are ignored.  Every payload it rejects is rejected with the same
    [ValidationError("Invalid product data")]. *)
Theorem validateProduct_accepts_iff_five_typed (c : Ctx) (st : Store) :
  (validateProduct c st = Next <-> valid_payload (req_body (req c))) /\
  (~ valid_payload (req_body (req c)) ->
   validateProduct c st = NextErr (ValidationError "Invalid product data")) /\
  (validateProduct c st = Next \/
   validateProduct c st = NextErr (ValidationError "Invalid product data")).
Proof.
  rewrite validateProduct_passes, <- passes_valid.
  destruct (passes (req_body (req c))); split_and!; auto; done.
Qed.

(** ** Update *)

(** C5: a PUT whose body fails validation is answered 400 whether or not
    the identifier exists; 404 is the answer exactly for a valid body and
    an absent identifier. *)
Theorem put_validates_before_lookup (u : string) (st : Store) (i : string)
    (q : list (string * QValue)) (b : list (string * JValue)) :
  i <> "" ->
  let r := with_key PUT ["api"; "products"; i] q b in
  (~ valid_payload b -> handle u st r = (st, invalid_product)) /\
  (valid_payload b -> i ∉ ids st -> handle u st r = (st, not_found)) /\
  (code (snd (handle u st r)) = 404 -> valid_payload b /\ i ∉ ids st).
Proof.
  intros Hi r. unfold r. rewrite handle_put by done.
  rewrite <- passes_valid. unfold update_handler. cbv [param_id].
  destruct (passes b); [|split_and!; [done|done|discriminate]].
  destruct (findIndex_by_id st i) as [k|] eqn:E.
  - assert (i ∈ ids st).
    { destruct (decide (i ∈ ids st)); [done|].
      apply findIndex_by_id_None in n. congruence. }
    apply findIndex_by_id_Some in E as (p & Hk & _).
    rewrite list_lookup_insert_eq by (by eapply lookup_lt_Some).
    split_and!; [done|done|discriminate].
  - apply findIndex_by_id_None in E. split_and!; done.
Qed.

Lemma business_field_of_body i b k v :
  k ∈ business_fields -> field b k = Some v ->
  business_field (product_of_body i b) k = Some v.
Proof.
  intros Hk Hv. unfold business_fields in Hk.
  assert (get_prop b k = v) as <- by (by rewrite get_prop_field, Hv).
  repeat (apply elem_of_cons in Hk as [->|Hk]; [reflexivity|]).
  by apply elem_of_nil in Hk.
Qed.

(** C8: after an update of an existing product with a valid body, get-by-id
    returns the record made of the fields of the body under the identifier
    of the path, whatever [id] the body carries. *)
Theorem update_then_get (u u' : string) (st : Store) (i : string)
    (q q' : list (string * QValue)) (b b' : list (string * JValue)) :
  i <> "" -> i ∈ ids st -> valid_payload b ->
  exists st' p,
    handle u st (with_key PUT ["api"; "products"; i] q b) =
      (st', {| code := 200; body := BProduct p |}) /\
    handle u' st' (with_key GET ["api"; "products"; i] q' b') =
      (st', {| code := 200; body := BProduct p |}) /\
    Product.id p = i /\
    (forall k v, k ∈ business_fields -> field b k = Some v ->
                 business_field p k = Some v) /\
    length st' = length st.
Proof.
  intros Hi Hin Hb. apply passes_valid in Hb.
  destruct (findIndex_by_id_elem st i Hin) as [k Hk].
  exists (<[k := product_of_body i b]> st), (product_of_body i b).
  rewrite handle_put, handle_get, Hb by done.
  unfold update_handler, get_handler. cbv [param_id req req_body json with_key].
  rewrite Hk, (find_by_id_insert st i k) by done.
  pose proof Hk as (p0 & Hp0 & _)%findIndex_by_id_Some.
  rewrite list_lookup_insert_eq by (by eapply lookup_lt_Some).
  split_and!; [done|done|done| |apply length_insert].
  intros k' v. apply business_field_of_body.
Qed.

(** ** Delete *)

(** C9: a DELETE of a present identifier answers 204 with an empty body and
    removes the slot that holds it, after which get-by-id answers 404; a
    DELETE of an absent identifier answers 404.  The identifiers of the
    store are distinct. *)
Theorem delete_then_get (u u' : string) (st : Store) (i : string)
    (q q' : list (string * QValue)) (b b' : list (string * JValue)) :
  i <> "" -> NoDup (ids st) ->
  (i ∈ ids st ->
   exists k p,
     st !! k = Some p /\ Product.id p = i /\
     handle u st (with_key DELETE ["api"; "products"; i] q b) =
       (without_slot k st, {| code := 204; body := BEmpty |}) /\
     handle u' (without_slot k st)
            (with_key GET ["api"; "products"; i] q' b') =
       (without_slot k st, not_found)) /\
  (i ∉ ids st ->
   handle u st (with_key DELETE ["api"; "products"; i] q b) = (st, not_found)).
Proof.
  intros Hi Hnd. rewrite handle_delete by done. unfold delete_handler.
  cbv [param_id]. split.
  - intros Hin. destruct (findIndex_by_id_elem st i Hin) as [k Hk].
    pose proof Hk as (p & Hp & Hid & _)%findIndex_by_id_Some.
    exists k, p. rewrite Hk, handle_get by done. unfold get_handler.
    cbv [param_id]. unfold without_slot. rewrite <- delete_take_drop.
    rewrite (find_by_id_delete st i k) by done. done.
  - intros Hout. apply findIndex_by_id_None in Hout. by rewrite Hout.
Qed.

(** ** The authentication gate *)

Lemma mount_products_inv p :
  mount_matches ["api"; "products"] p = true ->
  exists s1 s2 rest, p = s1 :: s2 :: rest /\
    seg_eqb "api" s1 = true /\ seg_eqb "products" s2 = true.
Proof.
  destruct p as [|s1 [|s2 rest]]; simpl; try discriminate.
  - rewrite andb_false_r. discriminate.
  - rewrite andb_true_r. intros [H1 H2]%andb_true_iff. eauto 6.
Qed.

Lemma authMiddleware_rejects c st :
  x_api_key (req c) <> Some "mysecretapikey" ->
  authMiddleware c st = Respond st unauthorized.
Proof.
  intros Hk. unfold authMiddleware.
  destruct (x_api_key (req c)) as [k|]; [|reflexivity].
  destruct (String.eqb_spec k "mysecretapikey") as [->|]; [done|].
  by rewrite orb_true_r.
Qed.

(** C3, as amended: a request under /api/products without the exact key
    never changes the store, and when its body was parsed (or it has none)
    it is answered 401 with the fixed body before any route is tried. *)
Theorem wrong_key_is_rejected (u : string) (st : Store) (r : Request) :
  mount_matches ["api"; "products"] (path r) = true ->
  x_api_key r <> Some "mysecretapikey" ->
  fst (handle u st r) = st /\
  (forall b, json r = Parsed b -> handle u st r = (st, unauthorized)).
Proof.
  intros (s1 & s2 & rest & Hp & H1 & H2)%mount_products_inv Hk.
  assert (forall b, json r = Parsed b -> handle u st r = (st, unauthorized)) as Hok.
  { intros b Hb. unfold handle, app.
    cbn -[authMiddleware seg_eqb]. unfold bodyParser_json. cbv [req].
    rewrite Hb, Hp. cbn -[authMiddleware seg_eqb]. rewrite H1, H2.
    cbn -[authMiddleware seg_eqb].
    rewrite authMiddleware_rejects by done. by destruct (method r). }
  split; [|done].
  destruct (json r) as [b|e] eqn:Hj; [by rewrite (Hok b)|].
  unfold handle, app. cbn. unfold bodyParser_json. cbv [req]. by rewrite Hj.
Qed.

(** ** The invariant of the store *)

Lemma run_keeps Pre Post u r layers :
  (forall st, Pre st -> Post st) ->
  Forall (layer_keeps Pre Post u r) layers ->
  forall pending st, Pre st -> Post (fst (run layers pending r u st)).
Proof.
  intros Hweak.
  induction 1 as [|l layers Hl _ IH]; intros pending st HP; [by apply Hweak|].
  destruct pending as [e|], l as [mount m|meth pattern chain|h]; simpl in *;
    auto.
  - specialize (Hl e {| req := r; param_id := ""; uuid := u |} st).
    simpl in Hl. destruct (h e _ st) as [|e'|st' resp]; eauto.
  - destruct (mount_matches mount (path r)); [|by auto].
    specialize (Hl {| req := r; param_id := ""; uuid := u |} st).
    simpl in Hl. destruct (m _ st) as [|e'|st' resp]; eauto.
  - destruct (Method_eqb meth (method r)) eqn:Em; [|by auto].
    assert (meth = method r) as Hm by (by destruct meth, (method r)).
    destruct (route_matches pattern (path r) "") as [i|]; [|by auto].
    specialize (Hl Hm {| req := r; param_id := i; uuid := u |} st).
    destruct (run_chain chain _ st) as [|e'|st' resp]; simpl; eauto.
Qed.

Lemma chain_reads_keeps Pre Post u r chain :
  (forall st, Pre st -> Post st) ->
  chain_reads chain -> chain_keeps Pre Post u r chain.
Proof. intros Hweak H c st st' resp _ _ HP Hr. rewrite (H _ _ _ _ Hr). auto. Qed.

Lemma reads_of_completion (fn : Ctx -> Store -> Completion) :
  (forall c st st' resp, fn c st = Returns st' resp -> st' = st) ->
  chain_reads [asyncHandler fn].
Proof.
  intros H c st st' resp. simpl. unfold asyncHandler.
  destruct (fn c st) eqn:E; try discriminate. intros [= <- <-]. eauto.
Qed.

Lemma reads_middleware :
  chain_reads [bodyParser_json] /\ chain_reads [logger] /\
  chain_reads [root_handler] /\ chain_reads [authMiddleware] /\
  (forall e, chain_reads [errorHandler false e]).
Proof.
  split_and!; [| | | |intros e]; intros c st st' resp; simpl;
    unfold bodyParser_json, logger, root_handler, authMiddleware.
  - destruct (json (req c)); discriminate.
  - discriminate.
  - by intros [= <- _].
  - destruct (x_api_key (req c)) as [k|]; [|by intros [= <- _]].
    destruct (_ || _); [by intros [= <- _]|discriminate].
  - by intros [= <- _].
Qed.

Lemma reads_handlers :
  chain_reads [asyncHandler list_handler] /\
  chain_reads [asyncHandler get_handler] /\
  chain_reads [asyncHandler search_handler] /\
  chain_reads [asyncHandler stats_handler].
Proof.
  split_and!; apply reads_of_completion; intros c st st' resp;
    unfold list_handler, get_handler, search_handler, stats_handler, json_200.
  - repeat case_match; try discriminate; by intros [= <- _].
  - repeat case_match; try discriminate; by intros [= <- _].
  - repeat case_match; try discriminate; by intros [= <- _].
  - by intros [= <- _].
Qed.

Lemma run_chain_validated fn c st :
  run_chain [validateProduct; asyncHandler fn] c st =
  if passes (req_body (req c))
  then match fn c st with
       | Throws e => NextErr e
       | Returns st' resp => Respond st' resp
       end
  else NextErr (ValidationError "Invalid product data").
Proof.
  simpl. rewrite validateProduct_passes. unfold asyncHandler.
  destruct (passes _); [|done]. by destruct (fn c st).
Qed.

Lemma create_keeps_inv u r :
  chain_keeps (inv_fresh u) store_inv u r
    [validateProduct; asyncHandler create_handler].
Proof.
  intros c st st' resp Hu _ [[Hnd Hty] Hfresh]. rewrite run_chain_validated.
  destruct (passes _) eqn:Hp; [|discriminate]. unfold create_handler.
  intros [= <- _]. split.
  - unfold ids in *. rewrite fmap_app. simpl. rewrite Hu.
    apply NoDup_app. split_and!; [done| |apply NoDup_singleton].
    intros x Hx ->%list_elem_of_singleton. done.
  - apply Forall_app. split; [done|]. apply Forall_singleton.
    by apply passes_typed.
Qed.

Lemma update_keeps_inv u r :
  chain_keeps (inv_fresh u) store_inv u r
    [validateProduct; asyncHandler update_handler].
Proof.
  intros c st st' resp _ _ [[Hnd Hty] _]. rewrite run_chain_validated.
  destruct (passes _) eqn:Hp; [|discriminate]. unfold update_handler.
  destruct (findIndex_by_id st (param_id c)) as [k|] eqn:Hk; [|discriminate].
  apply findIndex_by_id_Some in Hk as (p & Hk & Hid & _).
  rewrite list_lookup_insert_eq by (by eapply lookup_lt_Some).
  intros [= <- _]. split.
  - unfold ids in *. rewrite list_fmap_insert. simpl.
    rewrite list_insert_id; [done|]. by rewrite list_lookup_fmap, Hk, <- Hid.
  - apply Forall_insert; [done|]. by apply passes_typed.
Qed.

Lemma delete_keeps_inv u r :
  chain_keeps (inv_fresh u) store_inv u r [asyncHandler delete_handler].
Proof.
  intros c st st' resp _ _ [[Hnd Hty] _]. simpl.
  unfold asyncHandler, delete_handler.
  destruct (findIndex_by_id st (param_id c)) as [k|]; [|discriminate].
  intros [= <- _]. split.
  - unfold ids in *. rewrite list_fmap_delete.
    eapply sublist_NoDup; [done|]. apply sublist_delete.
  - by apply Forall_delete.
Qed.

Ltac layer_intro :=
  lazymatch goal with
  | |- _ = _ -> _ => intros ?Hmeth
  | |- forall e : Error, _ => intros e
  | |- _ => idtac
  end.

Lemma app_keeps_inv u r : Forall (layer_keeps (inv_fresh u) store_inv u r) app.
Proof.
  destruct reads_middleware as (? & ? & ? & ? & ?).
  destruct reads_handlers as (? & ? & ? & ?).
  assert (forall st, inv_fresh u st -> store_inv st) by (by intros st []).
  unfold app. repeat apply Forall_cons_2; try apply Forall_nil_2; simpl;
    layer_intro;
    first [ apply create_keeps_inv | apply update_keeps_inv
          | apply delete_keeps_inv
          | apply chain_reads_keeps; [assumption|auto] ].
Qed.

Lemma app_keeps_store_when_invalid u r st0 :
  method r = POST \/ method r = PUT ->
  passes (req_body r) = false ->
  Forall (layer_keeps (fun st => st = st0) (fun st => st = st0) u r) app.
Proof.
  intros Hm Hp.
  destruct reads_middleware as (? & ? & ? & ? & ?).
  destruct reads_handlers as (? & ? & ? & ?).
  unfold app. repeat apply Forall_cons_2; try apply Forall_nil_2; simpl;
    layer_intro;
    try (apply chain_reads_keeps; [done|auto; fail]).
  - intros c st st' resp _ Hr _. rewrite run_chain_validated, Hr, Hp.
    discriminate.
  - intros c st st' resp _ Hr _. rewrite run_chain_validated, Hr, Hp.
    discriminate.
  - destruct Hm as [Hm|Hm]; rewrite Hm in Hmeth; discriminate.
Qed.

Lemma handle_keeps_inv u st r :
  store_inv st -> u ∉ ids st -> store_inv (fst (handle u st r)).
Proof.
  intros Hinv Hu. unfold handle.
  apply (run_keeps (inv_fresh u) store_inv u r app);
    [by intros ? []|apply app_keeps_inv|done].
Qed.

Lemma store_inv_init : store_inv products_init.
Proof. split; [apply NoDup_nil_2|apply Forall_nil_2]. Qed.

(** Every store the application can be in satisfies the invariant. *)
Lemma reachable_store_inv st : reachable st -> store_inv st.
Proof.
  induction 1; [apply store_inv_init|by apply handle_keeps_inv].
Qed.

(** C4, as amended: the empty store satisfies the invariant, and every
    request served with a fresh identifier preserves it: the identifiers
    are distinct and every product has its five business fields of the
    right primitive types (the name may be empty).  A POST or PUT whose
    payload the validator rejects writes nothing. *)
Theorem store_inv_preserved :
  store_inv products_init /\
  (forall u st r, store_inv st -> u ∉ ids st -> store_inv (fst (handle u st r))) /\
  (forall u st r, method r = POST \/ method r = PUT ->
                  ~ valid_payload (req_body r) -> fst (handle u st r) = st).
Proof.
  split_and!.
  - apply store_inv_init.
  - apply handle_keeps_inv.
  - intros u st r Hm Hb. unfold handle.
    apply (run_keeps (fun s => s = st) (fun s => s = st) u r app); [done| |done].
    apply app_keeps_store_when_invalid; [done|].
    rewrite <- passes_valid in Hb. by destruct (passes (req_body r)).
Qed.

(** ** Numbers: rounding does not change what [slice] selects *)








(** ** List: filter and pagination *)

Lemma category_filter_typed (q : string) st :
  Forall typed st ->
  category_filter (QStr q) st =
  inr (filter (fun p => Is_true (category_is q p)) st).
Proof.
  unfold category_filter. induction 1 as [|p st Hp _ IH]; [done|].
  simpl. rewrite IH. unfold category_matches, category_is.
  destruct Hp as (_ & _ & _ & Hc & _).
  destruct (Product.category p) as [| | | |s| |] eqn:E; try discriminate.
  simpl. rewrite filter_cons. rewrite E.
  destruct (String.eqb_spec (toLowerCase s) (toLowerCase q));
    case_decide; simpl in *; done.
Qed.

Lemma list_handler_typed c st :
  Forall typed st ->
  let q := query (req c) in
  text_or_absent (query_param q "category") ->
  let filtered := filtered_by (as_text (query_param q "category")) st in
  list_handler c st =
  json_200 st (BPage (page_used q) (limit_used q) (length filtered)
                 (slice filtered (num_mul (num_pred (page_used q)) (limit_used q))
                        (num_mul (page_used q) (limit_used q)))).
Proof.
  intros Hty q Htext filtered. unfold list_handler, filtered, filtered_by.
  fold q. destruct (query_param q "category") as [[[|a s]|items|fields]|];
    try done.
  simpl. by rewrite category_filter_typed.
Qed.

(** A category that is not a text makes the filter throw as soon as there
    is a product to compare it with. *)
Lemma list_handler_category_not_text c p st v :
  typed p -> query_param (query (req c)) "category" = Some v ->
  (forall s, v <> QStr s) ->
  list_handler c (p :: st) =
  Throws (TypeError "req.query.category.toLowerCase is not a function").
Proof.
  intros (_ & _ & _ & Hc & _) Hq Hv. unfold list_handler. rewrite Hq.
  assert (category_filter v (p :: st) =
          inl (TypeError "req.query.category.toLowerCase is not a function"))
    as Hf.
  { unfold category_filter. cbn [filter_throw]. unfold category_matches at 1.
    destruct (Product.category p); try discriminate.
    destruct v as [s'|?|?]; [by destruct (Hv s')|done..]. }
  destruct v as [s|items|fields]; [by destruct (Hv s)|..]; by rewrite Hf.
Qed.

Lemma slice_clamped {A} (l : list A) (s e : Number) (a b : Z) :
  0 <= a <= b ->
  relative_index (Z.of_nat (length l)) s = Z.min a (Z.of_nat (length l)) ->
  relative_index (Z.of_nat (length l)) e = Z.min b (Z.of_nat (length l)) ->
  slice l s e = range l (Z.to_nat a) (Z.to_nat b).
Proof.
  intros Hab Hs He. unfold slice, range. rewrite Hs, He.
  destruct (decide (Z.to_nat a < length l)%nat) as [Hlt|Hge].
  - rewrite (Z.min_l a) by lia.
    destruct (decide (Z.to_nat b <= length l)%nat).
    + rewrite (Z.min_l b) by lia. f_equal; lia.
    + rewrite (Z.min_r b) by lia.
      rewrite !take_ge; [done|rewrite length_drop; lia..].
  - rewrite !drop_ge by lia. by rewrite !take_nil.
Qed.

Lemma slice_range {A} (l : list A) (a b : Z) :
  0 <= a <= b -> slice l (Fin a) (Fin b) = range l (Z.to_nat a) (Z.to_nat b).
Proof.
  intros Hab. apply slice_clamped; [done|simpl..].
  - destruct (Z.ltb_spec a 0); [lia|done].
  - destruct (Z.ltb_spec b 0); [lia|done].
Qed.


Lemma range_lookup {A} (l : list A) a b j :
  (j < b - a)%nat -> range l a b !! j = l !! (a + j)%nat.
Proof. intros Hj. unfold range. by rewrite lookup_take_lt, lookup_drop. Qed.






(** ** List: zero and negative page or limit *)



(** ** Search *)

Lemma append_cons c a b : String c a +:+ b = String c (a +:+ b).
Proof. reflexivity. Qed.

Lemma prefix_append a s :
  String.prefix a s = true <-> exists post, s = a +:+ post.
Proof.
  revert s. induction a as [|c a IH]; intros [|d s]; simpl.
  - split; [by exists ""|done].
  - split; [by exists (String d s)|done].
  - split; [done|]. intros [post H]. rewrite append_cons in H. discriminate.
  - destruct (ascii_dec c d) as [->|Hne].
    + rewrite IH. split; intros [post H]; exists post;
        rewrite append_cons in *; congruence.
    + split; [done|]. intros [post H]. rewrite append_cons in H. congruence.
Qed.

Lemma includes_substring_of s sub :
  includes s sub = true <-> substring_of sub s.
Proof.
  unfold substring_of. induction s as [|c s IH].
  - change (includes "" sub) with (String.prefix sub "" || false).
    rewrite orb_false_r, prefix_append. split.
    + intros [post H]. by exists "", post.
    + intros ([|? ?] & post & H); [eauto|discriminate].
  - change (includes (String c s) sub)
      with (String.prefix sub (String c s) || includes s sub).
    rewrite orb_true_iff, IH, prefix_append. split.
    + intros [[post H]|(pre & post & H)].
      * by exists "", post.
      * exists (String c pre), post. by rewrite append_cons, H.
    + intros ([|d pre] & post & H).
      * left. eauto.
      * right. exists pre, post. rewrite append_cons in H. congruence.
Qed.

Lemma name_filter_typed (q : string) st :
  Forall typed st ->
  name_filter (QStr q) st =
  inr (filter (fun p => Is_true (name_contains q p)) st).
Proof.
  unfold name_filter. induction 1 as [|p st Hp _ IH]; [done|].
  simpl. rewrite IH. unfold name_matches, name_contains.
  destruct Hp as (Hn & _).
  destruct (Product.name p) as [| | | |s| |] eqn:E; try discriminate.
  simpl. rewrite filter_cons, E.
  destruct (includes (toLowerCase s) (toLowerCase q)); case_decide; simpl in *; done.
Qed.

(** What the search handler computes when it runs: 400 for a missing (or
    empty) name, else the products whose name contains the query up to
    case. *)
Lemma search_handler_spec c st :
  Forall typed st ->
  text_or_absent (query_param (query (req c)) "name") ->
  search_handler c st =
  match as_text (query_param (query (req c)) "name") with
  | None | Some "" =>
      Returns st {| code := 400;
                    body := BError "Missing required query parameter: name" |}
  | Some q =>
      json_200 st (BProducts (filter (fun p => Is_true (name_contains q p)) st))
  end.
Proof.
  intros Hty Htext. unfold search_handler.
  destruct (query_param _ _) as [[[|a q]|items|fields]|]; try done.
  simpl. by rewrite name_filter_typed.
Qed.

Lemma name_contains_spec q p :
  name_contains q p = true <->
  exists s, Product.name p = JStr s /\ substring_of (toLowerCase q) (toLowerCase s).
Proof.
  unfold name_contains. destruct (Product.name p); try (split; [done|by intros (? & [=] & _)]).
  rewrite includes_substring_of. split; [eauto|]. by intros (? & [= <-] & ?).
Qed.

(** The request GET /api/products/search is answered by the get-by-id
    route, registered before the search route, with [search] as the
    identifier. *)
Lemma search_route_shadowed u st q b :
  handle u st (with_key GET ["api"; "products"; "search"] q b) =
  match find_by_id st "search" with
  | None => (st, not_found)
  | Some p => (st, {| code := 200; body := BProduct p |})
  end.
Proof.
  rewrite handle_get by done. unfold get_handler. cbv [param_id].
  by destruct (find_by_id st "search").
Qed.

Lemma stats_route_shadowed u st q b :
  handle u st (with_key GET ["api"; "products"; "stats"] q b) =
  match find_by_id st "stats" with
  | None => (st, not_found)
  | Some p => (st, {| code := 200; body := BProduct p |})
  end.
Proof.
  rewrite handle_get by done. unfold get_handler. cbv [param_id].
  by destruct (find_by_id st "stats").
Qed.

(** ** Stats *)

Lemma total_insert_fresh m k t :
  m !! k = None -> total (<[k := t]> m) = (tally_count t + total m)%nat.
Proof.
  intros Hk. unfold total. rewrite map_fold_insert_L; [done| |done].
  intros. lia.
Qed.

Lemma total_insert_over m k t t' :
  m !! k = Some t ->
  (total (<[k := t']> m) + tally_count t = total m + tally_count t')%nat.
Proof.
  intros Hk. rewrite <- insert_delete_eq.
  rewrite total_insert_fresh by apply lookup_delete_eq.
  unfold total at 2. rewrite (map_fold_delete_L _ _ k t m); [|intros; lia|done].
  fold (total (delete k m)). lia.
Qed.

Lemma tally_step_plain acc k :
  numeric acc -> Object_prototype_text k = None ->
  tally_step acc k =
  <[k := Count (match acc !! k with Some (Count n) => n + 1 | _ => 1 end)]> acc.
Proof.
  intros Hnum Hk. unfold tally_step. rewrite Hk.
  destruct (acc !! k) as [t|] eqn:E; [|done].
  destruct (Hnum k t E) as [n ->]. done.
Qed.

Lemma tally_step_numeric acc k :
  numeric acc -> Object_prototype_text k = None -> numeric (tally_step acc k).
Proof.
  intros Hnum Hk. rewrite tally_step_plain by done. intros k' t.
  rewrite lookup_insert. case_decide; [intros [= <-]; eauto|apply Hnum].
Qed.

Lemma tally_step_total acc k :
  numeric acc -> Object_prototype_text k = None ->
  total (tally_step acc k) = S (total acc).
Proof.
  intros Hnum Hk. rewrite tally_step_plain by done.
  destruct (acc !! k) as [t|] eqn:E.
  - destruct (Hnum k t E) as [n ->].
    pose proof (total_insert_over acc k (Count n) (Count (n + 1)) E) as H.
    simpl in H. lia.
  - rewrite total_insert_fresh by done. simpl. lia.
Qed.

Lemma tally_from_cons acc p s st :
  Product.category p = JStr s ->
  tally_from acc (p :: st) = tally_from (tally_step acc s) st.
Proof. intros Hs. unfold tally_from. simpl. by rewrite Hs. Qed.

Lemma count_category_cons k p s st :
  Product.category p = JStr s ->
  count_category k (p :: st) =
  ((if decide (s = k) then 1 else 0) + count_category k st)%nat.
Proof.
  intros Hs. unfold count_category. rewrite filter_cons.
  assert (has_category k p = bool_decide (s = k)) as Hc.
  { unfold has_category. rewrite Hs.
    destruct (String.eqb_spec s k); by case_bool_decide. }
  destruct (decide (Is_true (has_category k p))) as [H|H]; rewrite Hc in H;
    case_bool_decide; case_decide; simpl in *; done.
Qed.

Lemma tally_fold st : forall acc,
  numeric acc -> Forall plain_category st ->
  numeric (tally_from acc st) /\
  total (tally_from acc st) = (total acc + length st)%nat /\
  forall k, tally_from acc st !! k = bump (acc !! k) (count_category k st).
Proof.
  induction st as [|p st IH]; intros acc Hnum Hst.
  - split_and!; [done|simpl; lia|done].
  - apply Forall_cons in Hst as [(s & Hs & Hplain) Hst].
    rewrite (tally_from_cons acc p s st Hs).
    destruct (IH (tally_step acc s)) as (Hn & Ht & Hl);
      [by apply tally_step_numeric|done|].
    split_and!; [done|rewrite Ht, tally_step_total by done; simpl; lia|].
    intros k. rewrite Hl, tally_step_plain, (count_category_cons k p s) by done.
    rewrite lookup_insert. case_decide as Hk; [subst s|done].
    destruct (acc !! k) as [t|] eqn:E.
    + destruct (Hnum k t E) as [n ->]. unfold bump.
      destruct (count_category k st); simpl; do 2 f_equal; lia.
    + unfold bump. by destruct (count_category k st).
Qed.

(** What the stats handler computes when it runs on a store whose
    categories name no member of [Object.prototype]: each category that
    occurs, with the number of products that have exactly it, the counts
    summing to the number of products. *)
Lemma stats_handler_spec c st :
  Forall plain_category st ->
  stats_handler c st = json_200 st (BStats (stats_of st)) /\
  (forall k, stats_of st !! k = expected_tally k st) /\
  total (stats_of st) = length st.
Proof.
  intros Hst. split; [done|].
  destruct (tally_fold st ∅) as (_ & Ht & Hl); [by intros k t|done|].
  change (tally_from ∅ st) with (stats_of st) in *. split.
  - intros k. rewrite Hl, lookup_empty. unfold expected_tally, bump.
    by destruct (count_category k st).
  - rewrite Ht. unfold total. by rewrite map_fold_empty.
Qed.

(** * Further properties of the handlers *)

(** ** Create *)

Lemma find_by_id_snoc_fresh st p i :
  Product.id p = i -> i ∉ ids st -> find_by_id (st ++ [p]) i = Some p.
Proof.
  intros Hp Hfresh. apply find_by_id_None in Hfresh. unfold find_by_id in *.
  apply fmap_None in Hfresh. rewrite list_find_app_r by done.
  simpl. by rewrite decide_True.
Qed.

(** X1: a POST with a valid payload answers 201 with the record made of the
    five fields of the payload under the identifier drawn (an [id] in the
    payload is ignored), appends that record at the end of the store, and,
    the identifier being fresh, a get-by-id of it then answers the same
    record. *)
Theorem create_then_get (u u' : string) (st : Store)
    (q q' : list (string * QValue)) (b b' : list (string * JValue)) :
  u <> "" -> u ∉ ids st -> valid_payload b ->
  let p := product_of_body u b in
  handle u st (with_key POST ["api"; "products"] q b) =
    ((st ++ [p])%list, {| code := 201; body := BProduct p |}) /\
  handle u' (st ++ [p])%list (with_key GET ["api"; "products"; u] q' b') =
    ((st ++ [p])%list, {| code := 200; body := BProduct p |}) /\
  Product.id p = u /\
  (forall k v, k ∈ business_fields -> field b k = Some v ->
               business_field p k = Some v).
Proof.
  intros Hu Hfresh Hb p. apply passes_valid in Hb.
  rewrite handle_post, Hb, handle_get by done.
  unfold create_handler, get_handler. cbv [param_id req req_body json with_key uuid].
  fold p. rewrite (find_by_id_snoc_fresh st p u) by done.
  split_and!; [done..|]. intros k v. apply business_field_of_body.
Qed.

(** X2: a POST answers 201 exactly when its payload is valid; otherwise it
    answers 400 "Invalid product data" and stores nothing. *)
Theorem create_validates (u : string) (st : Store)
    (q : list (string * QValue)) (b : list (string * JValue)) :
  let r := with_key POST ["api"; "products"] q b in
  (code (snd (handle u st r)) = 201 <-> valid_payload b) /\
  (~ valid_payload b -> handle u st r = (st, invalid_product)) /\
  (valid_payload b -> length (fst (handle u st r)) = S (length st)).
Proof.
  intros r. unfold r. rewrite handle_post, <- passes_valid.
  destruct (passes b); simpl.
  - split_and!; [done|done|]. intros _. rewrite length_app. simpl. lia.
  - split_and!; [split; discriminate|done|discriminate].
Qed.

(** ** Get by id *)

(** X3: get-by-id answers 200 with the product that has the identifier when
    there is one (the identifiers of the store being distinct, the only
    one), 404 "Product not found" when there is none, and never changes
    the store. *)
Theorem get_by_id_found_or_404 (u : string) (st : Store) (i : string)
    (q : list (string * QValue)) (b : list (string * JValue)) :
  i <> "" -> NoDup (ids st) ->
  let r := with_key GET ["api"; "products"; i] q b in
  (forall p, p ∈ st -> Product.id p = i ->
             handle u st r = (st, {| code := 200; body := BProduct p |})) /\
  (i ∉ ids st -> handle u st r = (st, not_found)) /\
  fst (handle u st r) = st.
Proof.
  intros Hi Hnd r. unfold r. rewrite handle_get by done.
  unfold get_handler. cbv [param_id]. split_and!.
  - intros p Hp Hid. destruct (find_by_id st i) as [p'|] eqn:E.
    + unfold find_by_id in E. apply fmap_Some in E as ([k p''] & E & ->).
      apply list_find_Some in E as (Hk & Hid' & _). simpl in *.
      apply list_elem_of_lookup in Hp as [j Hj].
      assert (k = j) as ->; [|by simplify_eq].
      eapply NoDup_lookup; [exact Hnd|unfold ids..].
      * by rewrite list_lookup_fmap, Hk; simpl; rewrite Hid'.
      * by rewrite list_lookup_fmap, Hj; simpl; rewrite Hid.
    + apply find_by_id_None in E. destruct E. unfold ids.
      apply list_elem_of_fmap. eauto.
  - intros Hout%find_by_id_None. by rewrite Hout.
  - by destruct (find_by_id st i).
Qed.

(** ** The root route *)

(** X4: GET / is answered 200 "Hello World" with or without an API key and
    leaves the store as it is; only a body the JSON parser rejects keeps it
    from being answered, and then the error handler renders the parser's
    error. *)
Theorem root_needs_no_key (u : string) (st : Store) (r : Request) :
  method r = GET -> path r = [] ->
  handle u st r =
  (st, match json r with
       | Parsed _ => {| code := 200; body := BText "Hello World" |}
       | ParseFailed e => error_response e
       end).
Proof.
  intros Hm Hp. unfold handle, app. cbn. unfold bodyParser_json. cbv [req].
  destruct (json r) as [b|e]; [|reflexivity]. by rewrite Hm, Hp.
Qed.

(** ** List: defaults and edges *)

(** X9: a list request without query parameters answers page 1 at limit 10:
    the first ten products in insertion order, with the size of the store
    as total. *)
Theorem list_defaults (u : string) (st : Store) (b : list (string * JValue)) :
  handle u st (with_key GET ["api"; "products"] [] b) =
  (st, {| code := 200; body := BPage 1 10 (length st) (take 10 st) |}).
Proof.
  rewrite handle_list. unfold list_handler. cbv [req query with_key query_param].
  cbv [parseInt or_default answer json_200]. do 3 f_equal.
  change (num_mul (num_pred 1) 10) with (Fin 0).
  change (num_mul 1 10) with (Fin 10).
  rewrite (slice_range st 0 10) by lia.
  unfold range. by rewrite drop_0.
Qed.


(** X11: the category filter of the list ignores case: two requests that
    differ only in the case of the category are answered alike. *)
Theorem list_category_up_to_case (u : string) (st : Store)
    (c1 c2 : string) (q : list (string * QValue)) (b : list (string * JValue)) :
  Forall typed st -> c1 <> "" -> c2 <> "" ->
  toLowerCase c1 = toLowerCase c2 ->
  handle u st (with_key GET ["api"; "products"] (("category", QStr c1) :: q) b) =
  handle u st (with_key GET ["api"; "products"] (("category", QStr c2) :: q) b).
Proof.
  intros Hty H1 H2 Hc. rewrite !handle_list, !list_handler_typed by done.
  cbv [req query with_key]. unfold page_used, limit_used.
  change (query_param (("category", QStr c1) :: q) "limit") with (query_param q "limit").
  change (query_param (("category", QStr c2) :: q) "limit") with (query_param q "limit").
  change (query_param (("category", QStr c1) :: q) "page") with (query_param q "page").
  change (query_param (("category", QStr c2) :: q) "page") with (query_param q "page").
  change (query_param (("category", QStr c1) :: q) "category") with (Some (QStr c1)).
  change (query_param (("category", QStr c2) :: q) "category") with (Some (QStr c2)).
  assert (filtered_by (as_text (Some (QStr c1))) st =
          filtered_by (as_text (Some (QStr c2))) st) as ->; [|done].
  destruct c1 as [|a1 c1], c2 as [|a2 c2]; try done.
  unfold filtered_by, as_text. apply list_filter_iff. intros p.
  unfold category_is. by rewrite Hc.
Qed.


(** ** Writes leave the other products alone *)

Lemma list_find_by_id_cons p st j :
  list_find (fun x => Product.id x = j) (p :: st) =
  if decide (Product.id p = j) then Some (0%nat, p)
  else prod_map S id <$> list_find (fun x => Product.id x = j) st.
Proof. reflexivity. Qed.

Lemma find_by_id_cons p st j :
  find_by_id (p :: st) j =
  if decide (Product.id p = j) then Some p else find_by_id st j.
Proof.
  unfold find_by_id. rewrite list_find_by_id_cons. case_decide; [done|].
  by destruct (list_find _ st) as [[]|].
Qed.

Lemma find_by_id_snoc_other st p j :
  Product.id p <> j -> find_by_id (st ++ [p]) j = find_by_id st j.
Proof.
  intros Hp. induction st as [|x st IH]; simpl.
  - rewrite find_by_id_cons. by rewrite decide_False.
  - rewrite !find_by_id_cons, IH. done.
Qed.

Lemma find_by_id_insert_other st k p0 p j :
  st !! k = Some p0 -> Product.id p0 <> j -> Product.id p <> j ->
  find_by_id (<[k := p]> st) j = find_by_id st j.
Proof.
  revert k. induction st as [|x st IH]; intros [|k] Hk H0 Hp; simplify_eq/=.
  - rewrite !find_by_id_cons. by rewrite !decide_False.
  - rewrite !find_by_id_cons. by rewrite (IH k).
Qed.

Lemma find_by_id_delete_other st k p0 j :
  st !! k = Some p0 -> Product.id p0 <> j ->
  find_by_id (delete k st) j = find_by_id st j.
Proof.
  revert k. induction st as [|x st IH]; intros [|k] Hk H0; simplify_eq/=.
  - rewrite find_by_id_cons. by rewrite decide_False.
  - rewrite !find_by_id_cons. by rewrite (IH k).
Qed.

Lemma get_response_by_find u st st' j q b :
  j <> "" -> find_by_id st' j = find_by_id st j ->
  snd (handle u st' (with_key GET ["api"; "products"; j] q b)) =
  snd (handle u st (with_key GET ["api"; "products"; j] q b)).
Proof.
  intros Hj Hf. rewrite !handle_get by done. unfold get_handler.
  cbv [param_id]. rewrite Hf. by destruct (find_by_id st j).
Qed.

(** X6: creating, updating or deleting one product leaves get-by-id of
    every other identifier answered as before. *)
Theorem other_products_untouched (u u' : string) (st : Store) (i j : string)
    (q q' : list (string * QValue)) (b b' : list (string * JValue)) :
  j <> "" ->
  let get st' := snd (handle u' st' (with_key GET ["api"; "products"; j] q' b')) in
  (j <> u ->
   get (fst (handle u st (with_key POST ["api"; "products"] q b))) = get st) /\
  (i <> "" -> j <> i ->
   get (fst (handle u st (with_key PUT ["api"; "products"; i] q b))) = get st) /\
  (i <> "" -> j <> i ->
   get (fst (handle u st (with_key DELETE ["api"; "products"; i] q b))) = get st).
Proof.
  intros Hj get. unfold get. split_and!.
  - intros Hu. apply get_response_by_find; [done|]. rewrite handle_post.
    destruct (passes b); [|done]. unfold create_handler. simpl.
    by apply find_by_id_snoc_other.
  - intros Hi Hij. apply get_response_by_find; [done|]. rewrite handle_put by done.
    destruct (passes b); [|done]. unfold update_handler. cbv [param_id].
    destruct (findIndex_by_id st i) as [k|] eqn:Hk; [|done].
    apply findIndex_by_id_Some in Hk as (p0 & Hk & Hid & _).
    rewrite list_lookup_insert_eq by (by eapply lookup_lt_Some). simpl.
    apply (find_by_id_insert_other st k p0); [done|congruence|simpl; congruence].
  - intros Hi Hij. apply get_response_by_find; [done|].
    rewrite handle_delete by done. unfold delete_handler. cbv [param_id].
    destruct (findIndex_by_id st i) as [k|] eqn:Hk; [|done].
    apply findIndex_by_id_Some in Hk as (p0 & Hk & Hid & _). simpl.
    apply (find_by_id_delete_other st k p0); [done|congruence].
Qed.

(** ** Update and delete, repeated *)

Lemma findIndex_by_id_insert st i k p :
  findIndex_by_id st i = Some k -> Product.id p = i ->
  findIndex_by_id (<[k := p]> st) i = Some k.
Proof.
  intros (p0 & Hk & _ & Hleast)%findIndex_by_id_Some Hp.
  apply findIndex_by_id_Some. exists p. split_and!; [|done|].
  - apply list_lookup_insert_eq. by eapply lookup_lt_Some.
  - intros j y Hj Hlt. rewrite list_lookup_insert_ne in Hj by lia. eauto.
Qed.

(** X7: an update is idempotent: the same PUT sent again is answered with
    the same record and leaves the store as the first one made it. *)
Theorem put_idempotent (u u' : string) (st : Store) (i : string)
    (q q' : list (string * QValue)) (b : list (string * JValue)) :
  i <> "" -> i ∈ ids st -> valid_payload b ->
  let first := handle u st (with_key PUT ["api"; "products"; i] q b) in
  handle u' (fst first) (with_key PUT ["api"; "products"; i] q' b) =
  (fst first, snd first).
Proof.
  intros Hi Hin Hb first. unfold first. apply passes_valid in Hb.
  destruct (findIndex_by_id_elem st i Hin) as [k Hk].
  pose proof Hk as (p0 & Hp0 & _)%findIndex_by_id_Some.
  rewrite !handle_put, Hb by done. unfold update_handler.
  cbv [param_id req req_body json with_key]. rewrite Hk.
  rewrite list_lookup_insert_eq by (by eapply lookup_lt_Some). simpl.
  rewrite (findIndex_by_id_insert st i k) by done.
  rewrite list_insert_insert_eq.
  by rewrite list_lookup_insert_eq by (by eapply lookup_lt_Some).
Qed.

(** X8: a delete is answered 204 once: the identifiers of the store being
    distinct, the same DELETE sent again is answered 404 "Product not
    found" and changes nothing. *)
Theorem delete_twice (u u' : string) (st : Store) (i : string)
    (q q' : list (string * QValue)) (b b' : list (string * JValue)) :
  i <> "" -> NoDup (ids st) -> i ∈ ids st ->
  let first := handle u st (with_key DELETE ["api"; "products"; i] q b) in
  code (snd first) = 204 /\
  length (fst first) = pred (length st) /\
  handle u' (fst first) (with_key DELETE ["api"; "products"; i] q' b') =
  (fst first, not_found).
Proof.
  intros Hi Hnd Hin first. unfold first.
  destruct (findIndex_by_id_elem st i Hin) as [k Hk].
  pose proof Hk as (p0 & Hp0 & _)%findIndex_by_id_Some.
  rewrite !handle_delete by done. unfold delete_handler. cbv [param_id].
  rewrite Hk. simpl. split_and!; [done| |].
  - rewrite length_delete by eauto. lia.
  - pose proof (find_by_id_delete st i k Hnd Hk) as Hgone.
    apply find_by_id_None, findIndex_by_id_None in Hgone. by rewrite Hgone.
Qed.

(** ** What each method may do to the store *)

Lemma app_effect u r st (Post : Store -> Prop) :
  Post st ->
  (method r = POST ->
   chain_keeps (fun s => s = st) Post u r [validateProduct; asyncHandler create_handler]) ->
  (method r = PUT ->
   chain_keeps (fun s => s = st) Post u r [validateProduct; asyncHandler update_handler]) ->
  (method r = DELETE ->
   chain_keeps (fun s => s = st) Post u r [asyncHandler delete_handler]) ->
  Post (fst (handle u st r)).
Proof.
  intros Hst Hpost Hput Hdel. unfold handle.
  assert (forall s, s = st -> Post s) as Hweak by (by intros ? ->).
  apply (run_keeps (fun s => s = st) Post u r app); [done| |done].
  destruct reads_middleware as (? & ? & ? & ? & ?).
  destruct reads_handlers as (? & ? & ? & ?).
  unfold app. repeat apply Forall_cons_2; try apply Forall_nil_2; simpl;
    layer_intro;
    first [ apply chain_reads_keeps; [assumption|auto; fail]
          | apply Hpost; congruence
          | apply Hput; congruence
          | apply Hdel; congruence ].
Qed.

(** X5: how a request of each method can leave the store, whatever its
    path, key and body: a GET leaves it as it was; a POST leaves it as it
    was or with one product, under the identifier drawn, appended; a PUT
    leaves every identifier at its place; a DELETE leaves it as it was or
    without one of its slots. *)
Theorem store_effect_by_method (u : string) (st : Store) (r : Request) :
  let st' := fst (handle u st r) in
  (method r = GET -> st' = st) /\
  (method r = POST ->
   st' = st \/ exists p, st' = (st ++ [p])%list /\ Product.id p = u) /\
  (method r = PUT -> ids st' = ids st) /\
  (method r = DELETE ->
   st' = st \/ exists k, (k < length st)%nat /\ st' = without_slot k st).
Proof.
  intros st'. unfold st'. split_and!; intros Hm.
  - apply (app_effect u r st (fun s => s = st)); [done|..];
      intros Hm'; rewrite Hm in Hm'; discriminate.
  - apply (app_effect u r st
             (fun s => s = st \/ exists p, s = (st ++ [p])%list /\ Product.id p = u));
      [by left| |intros Hm'; rewrite Hm in Hm'; discriminate..].
    intros _ c s s' resp Hu _ ->. rewrite run_chain_validated.
    destruct (passes _); [|discriminate]. unfold create_handler.
    intros [= <- _]. right. eexists. split; [done|]. by simpl.
  - apply (app_effect u r st (fun s => ids s = ids st));
      [done|intros Hm'; rewrite Hm in Hm'; discriminate|
       |intros Hm'; rewrite Hm in Hm'; discriminate].
    intros _ c s s' resp _ _ ->. rewrite run_chain_validated.
    destruct (passes _); [|discriminate]. unfold update_handler.
    destruct (findIndex_by_id st (param_id c)) as [k|] eqn:Hk; [|discriminate].
    apply findIndex_by_id_Some in Hk as (p & Hk & Hid & _).
    rewrite list_lookup_insert_eq by (by eapply lookup_lt_Some).
    intros [= <- _]. unfold ids. rewrite list_fmap_insert. simpl.
    apply list_insert_id. by rewrite list_lookup_fmap, Hk, <- Hid.
  - apply (app_effect u r st
             (fun s => s = st \/
                       exists k, (k < length st)%nat /\ s = without_slot k st));
      [by left|intros Hm'; rewrite Hm in Hm'; discriminate..|].
    intros _ c s s' resp _ _ ->. simpl. unfold asyncHandler, delete_handler.
    destruct (findIndex_by_id st (param_id c)) as [k|] eqn:Hk; [|discriminate].
    apply findIndex_by_id_Some in Hk as (p & Hk & _).
    intros [= <- _]. right. exists k. split; [by eapply lookup_lt_Some|].
    unfold without_slot. apply delete_take_drop.
Qed.

(** ** The routes that are never reached *)

Lemma run_drop_untaken l u r pre post :
  takes_up l r = false ->
  forall pending st,
    run (pre ++ l :: post) pending r u st = run (pre ++ post) pending r u st.
Proof.
  intros Hl. induction pre as [|a pre IH]; intros pending st.
  - destruct pending as [e|], l as [mount m|meth pattern chain|h];
      simpl in *; try done.
    + by rewrite Hl.
    + destruct (Method_eqb meth (method r)); [|done].
      destruct (route_matches pattern (path r) ""); [|done].
      rewrite bool_decide_true in Hl by eauto. done.
  - destruct pending as [e|], a as [mount m|meth pattern chain|h]; simpl;
      rewrite ?IH; try done.
    + destruct (h e _ st); by rewrite ?IH.
    + destruct (mount_matches mount (path r)); [|done].
      destruct (m _ st); by rewrite ?IH.
    + destruct (Method_eqb meth (method r)); [|done].
      destruct (route_matches pattern (path r) ""); [|done].
      destruct (run_chain chain _ st); by rewrite ?IH.
Qed.

Lemma takes_up_literal_inv r s handlers :
  takes_up (Route GET (products_path ++ [Lit s]) handlers) r = true ->
  s <> "" ->
  method r = GET /\
  exists s1 s2 s3, path r = [s1; s2; s3] /\ seg_eqb "api" s1 = true /\
                   seg_eqb "products" s2 = true /\ s3 <> "".
Proof.
  unfold takes_up. intros [Hm Hp]%andb_true_iff Hs.
  apply bool_decide_eq_true in Hp as [i Hp].
  split; [by destruct (method r)|].
  destruct (path r) as [|s1 [|s2 [|s3 [|s4 rest]]]]; simpl in Hp; try done.
  - by destruct (seg_eqb "api" s1).
  - by destruct (seg_eqb "api" s1), (seg_eqb "products" s2).
  - destruct (seg_eqb "api" s1) eqn:E1; [|done].
    destruct (seg_eqb "products" s2) eqn:E2; [|done].
    destruct (seg_eqb s s3) eqn:E3; [|done].
    exists s1, s2, s3. split_and!; try done. intros ->.
    unfold seg_eqb in E3. simpl in E3. apply String.eqb_eq in E3.
    by destruct s.
  - destruct (seg_eqb "api" s1); [|done].
    destruct (seg_eqb "products" s2); [|done]. by destruct (seg_eqb s s3).
Qed.

Lemma handle_get_three_segments u st r s1 s2 s3 :
  method r = GET -> path r = [s1; s2; s3] ->
  seg_eqb "api" s1 = true -> seg_eqb "products" s2 = true -> s3 <> "" ->
  handle u st r = run app_reached None r u st.
Proof.
  intros Hm Hp H1 H2 H3. unfold handle, app, app_reached.
  cbn -[authMiddleware get_handler seg_eqb String.eqb]. unfold bodyParser_json.
  cbv [req]. destruct (json r); [|reflexivity].
  rewrite Hm, Hp. cbn -[authMiddleware get_handler seg_eqb String.eqb].
  rewrite H1, H2, (proj2 (String.eqb_neq s3 "") H3).
  cbn -[authMiddleware get_handler seg_eqb String.eqb].
  destruct (authMiddleware _ st); try reflexivity.
  unfold asyncHandler. by destruct (get_handler _ st).
Qed.


(** X13: the search and stats routes are never reached: every request is
    answered, and leaves the store, exactly as by the application without
    these two routes.  A GET for /api/products/search or /api/products/stats
    is taken up by the get-by-id route registered before them. *)
Theorem search_and_stats_never_run (u : string) (st : Store) (r : Request) :
  handle u st r = run app_reached None r u st.
Proof.
  set (search := Route GET (products_path ++ [Lit "search"]) [asyncHandler search_handler]).
  set (stats := Route GET (products_path ++ [Lit "stats"]) [asyncHandler stats_handler]).
  destruct (takes_up search r) eqn:Es.
  { apply takes_up_literal_inv in Es as (Hm & s1 & s2 & s3 & Hp & H1 & H2 & H3);
      [|done]. by eapply handle_get_three_segments. }
  destruct (takes_up stats r) eqn:Et.
  { apply takes_up_literal_inv in Et as (Hm & s1 & s2 & s3 & Hp & H1 & H2 & H3);
      [|done]. by eapply handle_get_three_segments. }
  unfold handle.
  change app
    with (take 9 app ++ search :: stats :: [UseError (errorHandler false)])%list.
  rewrite (run_drop_untaken search u r (take 9 app)) by done.
  rewrite (run_drop_untaken stats u r (take 9 app)) by done.
  reflexivity.
Qed.

(** ** The status codes of the application *)






(** ** The search handler, when it runs *)

(** X14: what the search handler computes on a store whose products are
    typed: for a missing or empty [name], 400 "Missing required query
    parameter: name"; for a [name] that is a text, 200 with the products,
    in store order, whose name in lower case contains the query in lower
    case; for a [name] that is not a text (a repeated parameter) and a
    store that is not empty, an error without status, which the error
    handler answers 500. *)
Theorem search_handler_matches (c : Ctx) (st : Store) :
  Forall typed st ->
  (forall q, query_param (query (req c)) "name" = Some (QStr q) -> q <> "" ->
     exists matched,
       search_handler c st = json_200 st (BProducts matched) /\
       matched `sublist_of` st /\
       forall p, p ∈ matched <->
                 p ∈ st /\ exists s, Product.name p = JStr s /\
                           substring_of (toLowerCase q) (toLowerCase s)) /\
  (query_param (query (req c)) "name" = None \/
   query_param (query (req c)) "name" = Some (QStr "") ->
   search_handler c st =
   Returns st {| code := 400;
                 body := BError "Missing required query parameter: name" |}) /\
  (forall v, query_param (query (req c)) "name" = Some v ->
             (forall s, v <> QStr s) -> st <> [] ->
             exists e, search_handler c st = Throws e /\
                       code (error_response e) = 500).
Proof.
  intros Hty. split_and!.
  - intros q Hq Hne. pose proof (search_handler_spec c st Hty) as Hspec.
    rewrite Hq in Hspec. rewrite Hspec by done.
    simpl. destruct q as [|a q]; [done|].
    eexists. split; [reflexivity|]. split; [apply sublist_filter|].
    intros p. rewrite list_elem_of_filter, Is_true_true, name_contains_spec. tauto.
  - pose proof (search_handler_spec c st Hty) as Hspec.
    intros [Hq|Hq]; rewrite Hq in Hspec; by rewrite Hspec.
  - intros v Hq Hv Hst. unfold search_handler. rewrite Hq.
    destruct st as [|p st]; [done|]. apply Forall_cons in Hty as [Hp _].
    destruct Hp as (Hn & _).
    destruct v as [s|items|fields]; [by destruct (Hv s)|..];
      unfold name_filter; cbn [filter_throw]; unfold name_matches at 1;
      (destruct (Product.name p); try discriminate);
      simpl; eexists; split; reflexivity.
Qed.

(** ** The stats handler, when it runs *)

(** X15: what the stats handler computes on a store whose categories are
    strings that name no member of [Object.prototype]: 200 with an object
    that has a key for exactly the category strings that occur, compared
    with their case, each with the number of products of exactly that
    category; the counts sum to the number of products. *)
Theorem stats_handler_tallies (c : Ctx) (st : Store) :
  Forall plain_category st ->
  exists m,
    stats_handler c st = json_200 st (BStats m) /\
    (forall k n, m !! k = Some (Count n) <->
                 (0 < n)%nat /\ n = count_category k st) /\
    (forall k, m !! k = None <-> count_category k st = 0%nat) /\
    numeric m /\ total m = length st.
Proof.
  intros Hst. exists (stats_of st).
  destruct (stats_handler_spec c st Hst) as (Hh & Hl & Ht).
  destruct (tally_fold st ∅) as (Hn & _ & _); [by intros k t|done|].
  split_and!; [done| | |done|done].
  - intros k n. rewrite Hl. unfold expected_tally.
    destruct (count_category k st) as [|n']; [split; [done|lia]|].
    split; [intros [= <-]; lia|intros [_ ->]; done].
  - intros k. rewrite Hl. unfold expected_tally.
    by destruct (count_category k st).
Qed.

Lemma append_one_nonempty s : s +:+ "1" <> "".
Proof. destruct s; [cbv|rewrite append_cons]; discriminate. Qed.

Lemma tally_step_inherited acc k k' t :
  Object_prototype_text k = Some t ->
  match acc !! k with
  | None => True
  | Some (Text s) => s <> ""
  | Some (Count _) => False
  end ->
  match tally_step acc k' !! k with
  | None => True
  | Some (Text s) => s <> ""
  | Some (Count _) => False
  end.
Proof.
  intros Ht Hacc. unfold tally_step.
  destruct (decide (k' = k)) as [->|Hne].
  - rewrite Ht. destruct (acc !! k) as [[n|s]|] eqn:E; [done| |].
    + destruct s as [|a s]; [done|]. rewrite lookup_insert_eq.
      apply append_one_nonempty.
    + destruct (String.eqb k "__proto__"); [by rewrite E|].
      rewrite lookup_insert_eq. apply append_one_nonempty.
  - destruct (acc !! k') as [[n|[|a s]]|]; rewrite ?lookup_insert_ne by done;
      try done.
    destruct (Object_prototype_text k'); [|by rewrite lookup_insert_ne].
    destruct (String.eqb k' "__proto__"); [done|by rewrite lookup_insert_ne].
Qed.

Lemma tally_step_proto acc k' :
  acc !! "__proto__" = None -> tally_step acc k' !! "__proto__" = None.
Proof.
  intros Hacc. unfold tally_step.
  destruct (decide (k' = "__proto__")) as [->|Hne].
  - by rewrite Hacc.
  - destruct (acc !! k') as [[n|[|a s]]|]; rewrite ?lookup_insert_ne by done;
      try done.
    destruct (Object_prototype_text k'); [|by rewrite lookup_insert_ne].
    destruct (String.eqb_spec k' "__proto__"); [done|by rewrite lookup_insert_ne].
Qed.

(** X16: the tally of the stats handler never holds a count under a name
    of a member of [Object.prototype] (constructor, toString, ...): a
    product of such a category is not counted, whatever the store; and
    under [__proto__] it holds nothing at all. *)
Theorem stats_skips_inherited_names (st : Store) (k : string) :
  is_Some (Object_prototype_text k) ->
  (forall n, stats_of st !! k <> Some (Count n)) /\
  stats_of st !! "__proto__" = None.
Proof.
  intros [t Ht]. change (stats_of st) with (tally_from ∅ st).
  assert (forall acc,
            match acc !! k with
            | None => True | Some (Text s) => s <> "" | Some (Count _) => False
            end /\ acc !! "__proto__" = None ->
            match tally_from acc st !! k with
            | None => True | Some (Text s) => s <> "" | Some (Count _) => False
            end /\ tally_from acc st !! "__proto__" = None) as Hinv.
  { unfold tally_from. induction st as [|p st IH]; intros acc [H1 H2]; [done|].
    simpl. apply IH. split;
      [by eapply tally_step_inherited|by apply tally_step_proto]. }
  destruct (Hinv ∅) as [H1 H2]; [by rewrite !lookup_empty|].
  split; [|done]. intros n Hn. by rewrite Hn in H1.
Qed.

(** ** Requests that no handler sees *)

(** X18: a request whose body the JSON parser rejects is answered by the
    error handler before the gate and every route, whatever its method,
    path and key: with the status of the parser's error (500 when it has
    none) and its message ("Internal Server Error" when it has none), and
    the store is left as it was. *)
Theorem parse_failure_answered (u : string) (st : Store) (r : Request) (e : Error) :
  json r = ParseFailed e ->
  handle u st r = (st, error_response e) /\
  code (error_response e) <> 0 /\
  (forall s, err_status e = Some s -> s <> 0 -> code (error_response e) = s) /\
  (err_status e = None -> code (error_response e) = 500) /\
  exists m, body (error_response e) = BError m /\ m <> "" /\
            (err_message e <> "" -> m = err_message e).
Proof.
  intros Hj. split_and!.
  - unfold handle, app. cbn. unfold bodyParser_json. cbv [req]. by rewrite Hj.
  - unfold error_response. simpl. by destruct (err_status e) as [[| |]|].
  - intros s Hs Hne. unfold error_response. simpl. rewrite Hs. by destruct s.
  - intros Hs. unfold error_response. simpl. by rewrite Hs.
  - unfold error_response. simpl.
    destruct (String.eqb_spec (err_message e) ""); eexists; split_and!; done.
Qed.

Lemma run_steps_over u r st layers :
  Forall (steps_over u r st) layers ->
  run layers None r u st = (st, finalhandler None).
Proof.
  induction 1 as [|l layers Hl _ IH]; [done|].
  destruct l as [mount m|meth pattern chain|h]; simpl in *; [| |done].
  - destruct (mount_matches mount (path r)); [|done]. by rewrite Hl.
  - destruct (Method_eqb meth (method r)); [|done].
    destruct (route_matches pattern (path r) ""); [|done].
    rewrite bool_decide_true in Hl by eauto. done.
Qed.

Lemma route_under_products_None pattern p i :
  mount_matches ["api"; "products"] p = false ->
  route_matches (products_path ++ pattern) p i = None.
Proof.
  destruct p as [|s1 [|s2 rest]]; simpl; try done.
  - by destruct (seg_eqb "api" s1).
  - destruct (seg_eqb "api" s1); [|done].
    destruct (seg_eqb "products" s2); [|done]. done.
Qed.

Lemma untaken_under_products meth pattern chain r :
  mount_matches ["api"; "products"] (path r) = false ->
  takes_up (Route meth (products_path ++ pattern) chain) r = false.
Proof.
  intros Hm. unfold takes_up. rewrite route_under_products_None by done.
  rewrite bool_decide_false; [apply andb_false_r|]. by intros [? [=]].
Qed.

(** X19: the application serves nothing but / and /api/products: a GET,
    POST, PUT or DELETE with a parsed body for any other path is answered
    by the 404 page of Express, without a key being asked for, and the
    store is left as it was. *)
Theorem other_paths_not_served (u : string) (st : Store) (r : Request)
    (b : list (string * JValue)) :
  json r = Parsed b ->
  mount_matches ["api"; "products"] (path r) = false ->
  path r <> [] ->
  handle u st r = (st, finalhandler None).
Proof.
  intros Hj Hmount Hroot. unfold handle. apply run_steps_over.
  unfold app. repeat apply Forall_cons_2; try apply Forall_nil_2;
    try (change products_path with (products_path ++ [])%list;
         by apply untaken_under_products);
    try (by apply untaken_under_products); try done.
  - intros _. unfold bodyParser_json. simpl. by rewrite Hj.
  - cbn [steps_over takes_up].
    destruct (path r); [done|]. apply andb_false_r.
  - cbn [steps_over]. intros Hm. congruence.
Qed.

End Application.

(** ** The application on examples

    The closed statements below are evaluated on [ascii_engine]; their
    strings are ASCII text. *)

#[local] Existing Instance ascii_engine.

Example parseInt_examples :
  parseInt (Some (QStr "12")) = Fin 12 /\ parseInt (Some (QStr " -7px")) = Fin (-7) /\
  parseInt (Some (QStr "0x1f")) = Fin 31 /\ parseInt (Some (QStr "abc")) = NaN /\
  parseInt (Some (QStr "0")) = Fin 0 /\ parseInt None = NaN /\
  parseInt (Some (QStr "")) = NaN /\ parseInt (Some (QStr "-")) = NaN /\
  parseInt (Some (QArr [QStr "2"; QStr "3"])) = Fin 2 /\
  parseInt (Some (QObj [("a", QStr "1")])) = NaN.
Proof. repeat split. Qed.

(** U+00A0 and U+3000 before the digits are skipped; 2^53 + 1 is read as
    2^53, and 2^53 + 3 as 2^53 + 4. *)
Example parseInt_white_and_rounding :
  parseInt_string (String (ascii_of_N 194) (String (ascii_of_N 160) "2")) = Fin 2 /\
  parseInt_string
    (String (ascii_of_N 227) (String (ascii_of_N 128) (String (ascii_of_N 128) "7"))) =
    Fin 7 /\
  parseInt_string "9007199254740993" = Fin 9007199254740992 /\
  parseInt_string "9007199254740995" = Fin 9007199254740996 /\
  parseInt_string "-9007199254740993" = Fin (-9007199254740992).
Proof. repeat split; by vm_compute. Qed.

Example slice_examples :
  slice [1; 2; 3; 4; 5] (Fin 1) (Fin 3) = [2; 3] /\
  slice [1; 2; 3; 4; 5] (Fin 0) (Fin (-2)) = [1; 2; 3] /\
  slice [1; 2; 3; 4; 5] (Fin (-2)) (Fin 9) = [4; 5] /\
  slice [1; 2; 3; 4; 5] (Fin 4) (Fin 2) = [] /\
  slice [1; 2; 3; 4; 5] NaN PosInf = [1; 2; 3; 4; 5].
Proof. repeat split. Qed.

Example toLowerCase_examples :
  toLowerCase "Red MUG-7" = "red mug-7" /\
  includes (toLowerCase "Red Mug") (toLowerCase "MUG") = true /\
  includes "red mug" "blue" = false /\ includes "abc" "" = true.
Proof. repeat split. Qed.

Lemma validateProduct_accepts_iff_five_typed_witness :
  validateProduct (sample_ctx (with_key POST ["api"; "products"] [] [])) [] =
  NextErr (ValidationError "Invalid product data").
Proof.
  apply (validateProduct_accepts_iff_five_typed
           (sample_ctx (with_key POST ["api"; "products"] [] [])) []).
  intros [[v [H _]] _]. discriminate H.
Defined.

(** C6 as stated fails: a payload with a sixth field passes the validator. *)
Lemma validateProduct_accepts_extra_field :
  let c := sample_ctx (with_key POST ["api"; "products"] [] pen_with_id) in
  ~ (validateProduct c [] = Next <-> exactly_five (req_body (req c))).
Proof.
  intros c [H _]. destruct (H eq_refl) as [_ Hk].
  specialize (Hk "id" (ex_intro _ (JStr "zz") eq_refl)).
  unfold business_fields in Hk.
  repeat (apply elem_of_cons in Hk as [Hk|Hk]; [discriminate Hk|]).
  by apply elem_of_nil in Hk.
Qed.

Lemma put_validates_before_lookup_witness :
  handle id2 two_products (with_key PUT ["api"; "products"; "nope"] [] []) =
  (two_products, invalid_product).
Proof.
  apply (put_validates_before_lookup id2 two_products "nope" [] []).
  - discriminate.
  - intros [[v [H _]] _]. discriminate H.
Defined.

Lemma update_then_get_witness :
  exists st' p,
    handle id1 two_products (with_key PUT ["api"; "products"; id2] [] pen_with_id) =
      (st', {| code := 200; body := BProduct p |}) /\
    handle id1 st' (with_key GET ["api"; "products"; id2] [] []) =
      (st', {| code := 200; body := BProduct p |}) /\
    Product.id p = id2 /\
    (forall k v, k ∈ business_fields -> field pen_with_id k = Some v ->
                 business_field p k = Some v) /\
    length st' = length two_products.
Proof.
  apply (update_then_get id1 id1 two_products id2 [] [] pen_with_id []).
  - discriminate.
  - right. left.
  - apply passes_valid. reflexivity.
Defined.

Lemma delete_then_get_witness :
  exists k p,
    two_products !! k = Some p /\ Product.id p = id1 /\
    handle id2 two_products (with_key DELETE ["api"; "products"; id1] [] []) =
      (without_slot k two_products,
       {| code := 204; body := BEmpty |}) /\
    handle id2 (without_slot k two_products)
           (with_key GET ["api"; "products"; id1] [] []) =
      (without_slot k two_products, not_found).
Proof.
  apply (delete_then_get id2 id2 two_products id1 [] [] [] []).
  - discriminate.
  - apply NoDup_cons. split.
    + intros H. apply list_elem_of_singleton in H. discriminate H.
    + apply NoDup_singleton.
  - left.
Defined.

Lemma wrong_key_is_rejected_witness :
  fst (handle id1 two_products wrong_key_post) = two_products /\
  (forall b, json wrong_key_post = Parsed b ->
             handle id1 two_products wrong_key_post = (two_products, unauthorized)).
Proof.
  apply (wrong_key_is_rejected id1 two_products wrong_key_post).
  - reflexivity.
  - discriminate.
Defined.

(** C3 as stated fails: the body is parsed before the gate, and a request
    without a key whose body does not parse is answered 400. *)
Lemma malformed_body_answered_before_gate :
  mount_matches ["api"; "products"] (path keyless_malformed_post) = true /\
  x_api_key keyless_malformed_post <> Some "mysecretapikey" /\
  handle id1 two_products keyless_malformed_post =
    (two_products, {| code := 400; body := BError "Unexpected end of JSON input" |}) /\
  snd (handle id1 two_products keyless_malformed_post) <> unauthorized.
Proof. split_and!; [reflexivity|discriminate|reflexivity|discriminate]. Qed.

Lemma store_inv_preserved_witness :
  store_inv (fst (handle id1 products_init (with_key POST ["api"; "products"] [] pen))) /\
  fst (handle id1 two_products (with_key PUT ["api"; "products"; id1] [] [])) =
    two_products.
Proof.
  destruct store_inv_preserved as (H0 & Hstep & Hwrite). split.
  - apply Hstep; [exact H0|]. apply not_elem_of_nil.
  - apply Hwrite; [by right|]. intros [[v [H _]] _]. discriminate H.
Defined.

(** C4 as stated fails: a product with an empty name passes the validator
    and is stored. *)
Lemma empty_name_is_stored :
  store_inv_nonempty_name products_init /\
  (id1 ∉ ids products_init) /\
  ~ store_inv_nonempty_name
      (fst (handle id1 products_init (with_key POST ["api"; "products"] [] nameless))).
Proof.
  split_and!.
  - split; [apply store_inv_init|apply Forall_nil_2].
  - apply not_elem_of_nil.
  - intros [_ H]. apply Forall_cons_1 in H as [H _]. by apply H.
Qed.




(** C1, the code at a failing input: with a product named "Red Mug" in the
    store, GET /api/products/search?name=red with the right key is answered
    404 "Product not found", and so is the request without [name]; the
    search handler, had it run, would have answered as the claim says. *)
Theorem search_request_answered_not_found :
  let r := with_key GET ["api"; "products"; "search"] [("name", QStr "red")] [] in
  let r0 := with_key GET ["api"; "products"; "search"] [] [] in
  handle id1 two_products r = (two_products, not_found) /\
  handle id1 two_products r0 = (two_products, not_found) /\
  search_handler (sample_ctx r) two_products =
    json_200 two_products (BProducts [product_of_body id2 red_mug]) /\
  search_handler (sample_ctx r0) two_products =
    Returns two_products
      {| code := 400; body := BError "Missing required query parameter: name" |}.
Proof. split_and!; reflexivity. Qed.

(** C2, the code at a failing input: with two products in the store,
    GET /api/products/stats with the right key is answered 404 "Product
    not found" by the get-by-id route.  The stats handler, had it run,
    would have tallied the two categories; it would not have counted a
    product whose category is [constructor] or [__proto__]. *)
Theorem stats_request_answered_not_found :
  handle id1 two_products (with_key GET ["api"; "products"; "stats"] [] []) =
    (two_products, not_found) /\
  stats_of two_products = {[ "Stationery" := Count 1; "Kitchen" := Count 1 ]} /\
  stats_of [product_of_body id1 constructor_item] =
    {[ "constructor" := Text "function Object() { [native code] }1" ]} /\
  stats_of [product_of_body id1 proto_item] = ∅.
Proof. split_and!; [reflexivity|by vm_compute..]. Qed.

Lemma create_then_get_witness :
  let p := product_of_body id1 pen_with_id in
  handle id1 [] (with_key POST ["api"; "products"] [] pen_with_id) =
    ([p], {| code := 201; body := BProduct p |}) /\
  handle id2 [p] (with_key GET ["api"; "products"; id1] [] []) =
    ([p], {| code := 200; body := BProduct p |}) /\
  Product.id p = id1 /\
  (forall k v, k ∈ business_fields -> field pen_with_id k = Some v ->
               business_field p k = Some v).
Proof.
  apply (create_then_get id1 id2 [] [] [] pen_with_id []).
  - discriminate.
  - apply not_elem_of_nil.
  - apply passes_valid. reflexivity.
Defined.

Lemma create_validates_witness :
  handle id1 two_products (with_key POST ["api"; "products"] [] []) =
    (two_products, invalid_product) /\
  length (fst (handle id1 two_products (with_key POST ["api"; "products"] [] pen))) = 3%nat.
Proof.
  destruct (create_validates id1 two_products [] []) as (_ & Hbad & _).
  destruct (create_validates id1 two_products [] pen) as (_ & _ & Hok).
  split.
  - apply Hbad. intros [[v [H _]] _]. discriminate H.
  - apply Hok. apply passes_valid. reflexivity.
Defined.

Lemma get_by_id_found_or_404_witness :
  handle id1 two_products (with_key GET ["api"; "products"; id2] [] []) =
    (two_products, {| code := 200; body := BProduct (product_of_body id2 red_mug) |}) /\
  handle id1 two_products (with_key GET ["api"; "products"; "nope"] [] []) =
    (two_products, not_found).
Proof.
  assert (NoDup (ids two_products)) as Hnd.
  { apply NoDup_cons. split.
    - intros H. apply list_elem_of_singleton in H. discriminate H.
    - apply NoDup_singleton. }
  split.
  - apply (get_by_id_found_or_404 id1 two_products id2 [] []);
      [discriminate|exact Hnd|right; left|reflexivity].
  - apply (get_by_id_found_or_404 id1 two_products "nope" [] []);
      [discriminate|exact Hnd|].
    intros H. repeat (apply elem_of_cons in H as [H|H]; [discriminate H|]).
    by apply elem_of_nil in H.
Defined.

Lemma root_needs_no_key_witness :
  handle id1 two_products
    {| method := GET; path := []; query := []; x_api_key := None; json := Parsed [] |} =
  (two_products, {| code := 200; body := BText "Hello World" |}).
Proof.
  apply (root_needs_no_key id1 two_products
           {| method := GET; path := []; query := []; x_api_key := None;
              json := Parsed [] |}); reflexivity.
Defined.


Lemma list_category_up_to_case_witness :
  handle id1 three_products
    (with_key GET ["api"; "products"] [("category", QStr "KITCHEN"); ("limit", QStr "5")] []) =
  handle id1 three_products
    (with_key GET ["api"; "products"] [("category", QStr "kitchen"); ("limit", QStr "5")] []).
Proof.
  apply (list_category_up_to_case id1 three_products "KITCHEN" "kitchen"
           [("limit", QStr "5")] []).
  - repeat constructor.
  - discriminate.
  - discriminate.
  - reflexivity.
Defined.


Lemma other_products_untouched_witness :
  snd (handle id1
         (fst (handle id1 two_products
                 (with_key DELETE ["api"; "products"; id1] [] [])))
         (with_key GET ["api"; "products"; id2] [] [])) =
  snd (handle id1 two_products (with_key GET ["api"; "products"; id2] [] [])).
Proof.
  apply (other_products_untouched id1 id1 two_products id1 id2 [] [] [] []);
    discriminate.
Defined.

Lemma put_idempotent_witness :
  let first := handle id1 two_products
                 (with_key PUT ["api"; "products"; id2] [] pen) in
  handle id2 (fst first) (with_key PUT ["api"; "products"; id2] [] pen) =
  (fst first, snd first).
Proof.
  apply (put_idempotent id1 id2 two_products id2 [] [] pen).
  - discriminate.
  - right. left.
  - apply passes_valid. reflexivity.
Defined.

Lemma delete_twice_witness :
  let first := handle id1 two_products
                 (with_key DELETE ["api"; "products"; id2] [] []) in
  code (snd first) = 204 /\
  length (fst first) = 1%nat /\
  handle id2 (fst first) (with_key DELETE ["api"; "products"; id2] [] []) =
  (fst first, not_found).
Proof.
  apply (delete_twice id1 id2 two_products id2 [] [] [] []).
  - discriminate.
  - apply NoDup_cons. split.
    + intros H. apply list_elem_of_singleton in H. discriminate H.
    + apply NoDup_singleton.
  - right. left.
Defined.

Lemma store_effect_by_method_witness :
  fst (handle id1 two_products
         (with_key GET ["api"; "products"; "search"] [("name", QStr "pen")] [])) =
    two_products /\
  ids (fst (handle id1 two_products
              (with_key PUT ["api"; "products"; id2] [] pen_with_id))) =
    ids two_products.
Proof.
  split.
  - apply (store_effect_by_method id1 two_products
             (with_key GET ["api"; "products"; "search"] [("name", QStr "pen")] [])).
    reflexivity.
  - destruct (store_effect_by_method id1 two_products
                (with_key PUT ["api"; "products"; id2] [] pen_with_id))
      as (_ & _ & Hput & _).
    apply Hput. reflexivity.
Defined.


Lemma search_handler_matches_witness :
  exists matched,
    search_handler
      (sample_ctx (with_key GET ["api"; "products"; "search"] [("name", QStr "MUG")] []))
      two_products = json_200 two_products (BProducts matched) /\
    matched `sublist_of` two_products /\
    forall p, p ∈ matched <->
              p ∈ two_products /\ exists s, Product.name p = JStr s /\
                                  substring_of (toLowerCase "MUG") (toLowerCase s).
Proof.
  apply (search_handler_matches
           (sample_ctx (with_key GET ["api"; "products"; "search"] [("name", QStr "MUG")] []))
           two_products).
  - repeat constructor.
  - reflexivity.
  - discriminate.
Defined.

Lemma stats_handler_tallies_witness :
  exists m,
    stats_handler (sample_ctx (with_key GET ["api"; "products"; "stats"] [] []))
      three_products = json_200 three_products (BStats m) /\
    (forall k n, m !! k = Some (Count n) <->
                 (0 < n)%nat /\ n = count_category k three_products) /\
    (forall k, m !! k = None <-> count_category k three_products = 0%nat) /\
    numeric m /\ total m = length three_products.
Proof.
  apply (stats_handler_tallies
           (sample_ctx (with_key GET ["api"; "products"; "stats"] [] []))
           three_products).
  repeat constructor; by eexists.
Defined.

Lemma stats_skips_inherited_names_witness :
  (forall n, stats_of [product_of_body id1 constructor_item; product_of_body id2 pen]
               !! "constructor" <> Some (Count n)) /\
  stats_of [product_of_body id1 constructor_item; product_of_body id2 pen]
    !! "__proto__" = None.
Proof.
  apply (stats_skips_inherited_names
           [product_of_body id1 constructor_item; product_of_body id2 pen]
           "constructor").
  by eexists.
Defined.

Lemma parse_failure_answered_witness :
  handle id1 two_products keyless_malformed_post =
  (two_products, {| code := 400; body := BError "Unexpected end of JSON input" |}).
Proof.
  apply (parse_failure_answered id1 two_products keyless_malformed_post malformed_json).
  reflexivity.
Defined.

Lemma other_paths_not_served_witness :
  handle id1 two_products
    {| method := GET; path := ["health"]; query := []; x_api_key := None;
       json := Parsed [] |} =
  (two_products, finalhandler None).
Proof.
  apply (other_paths_not_served id1 two_products
           {| method := GET; path := ["health"]; query := [];
              x_api_key := None; json := Parsed [] |} []).
  - reflexivity.
  - reflexivity.
  - discriminate.
Defined.

